(** * EquityVolSurface: calibration and query engine of
    [financepy/market/volatility/equity_vol_surface.py]

    A shallow embedding of the module and the properties of its
    natural-language specification.

    Numbers are the program's numbers: Python/NumPy [float64] is the kernel's
    binary64 type [float], with IEEE comparison ([<?], [<=?]), arithmetic,
    [abs] and [sqrt].  Collaborators the module imports but does not define
    (SciPy's [minimize], the smile formulas, the discount curves, the dates,
    [np.exp] and [np.log], ...) are the fields of the class [Externals].

    Python exceptions are values of [exn]; a computation that may raise
    returns a [result]; a computation that also calls a solver or prints runs
    in [M], which records those calls in order.

    The functions compiled with [njit(fastmath=True)] ([_obj], [volFunction],
    [_deltaFit], [_solveForSmileStrike]) are given the same IEEE arithmetic
    as the interpreted ones; no property below rests on the rounding of an
    operation inside them.  [check_argument_types] in the constructor is the
    typing of its arguments here.  [checkCalibration] is embedded with the
    lines it prints as data; [impliedDbns], [plotVolCurves] and [__repr__]
    are not embedded. *)

From Stdlib Require Import String.
From Stdlib Require Import Floats ZArith List Bool Lia PeanoNat.
Import ListNotations.

Set Implicit Arguments.

(* ================================================================== *)
(** ** Python prelude: exceptions, results, the call log               *)
(* ================================================================== *)

(** The exceptions that can leave the module.  [FinError] is the library's
    own error class; [External] stands for whatever an imported collaborator
    raises. *)
Inductive exn : Type :=
| FinError (msg : string)
| IndexError
| UnboundLocalError (name : string)
| ValueError (msg : string)
| StrikeSolveFailed
| External (code : Z).

Inductive result (A : Type) : Type :=
| Ok (a : A)
| Raise (e : exn).

Arguments Ok {A} a.
Arguments Raise {A} e.

Definition rbind {A B} (r : result A) (k : A -> result B) : result B :=
  match r with
  | Ok a => k a
  | Raise e => Raise e
  end.

Declare Scope result_scope.
Delimit Scope result_scope with result.
Notation "x <- c ;; k" := (rbind c (fun x => k))
  (at level 61, c at next level, right associativity) : result_scope.

(** [l[i]] on a Python list or a NumPy vector, [i >= 0]. *)
Definition getitem {A} (l : list A) (i : nat) : result A :=
  match nth_error l i with
  | Some a => Ok a
  | None => Raise IndexError
  end.

(** [l[-1]]. *)
Definition getitem_last {A} (l : list A) : result A :=
  match l with
  | [] => Raise IndexError
  | _ => getitem l (length l - 1)
  end.

(** [l[i] = v] on a NumPy vector. *)
Fixpoint setitem {A} (l : list A) (i : nat) (v : A) : result (list A) :=
  match l, i with
  | [], _ => Raise IndexError
  | _ :: tl, O => Ok (v :: tl)
  | a :: tl, S j =>
      match setitem tl j v with
      | Ok tl' => Ok (a :: tl')
      | Raise e => Raise e
      end
  end.

(** [np.zeros(n)]. *)
Definition np_zeros (n : nat) : list float := repeat 0%float n.

(** The solver choices ([FinSolverTypes]) and the smile families
    ([FinVolFunctionTypes]) the module dispatches on, and the option rights
    it names. *)
Inductive FinSolverTypes : Type :=
| CONJUGATE_GRADIENT
| NELDER_MEAD
| NELDER_MEAD_NUMBA.

Inductive FinVolFunctionTypes : Type :=
| CLARK | SABR | SABR_BETA_ONE | SABR_BETA_HALF | BBG | CLARK5 | SVI | SSVI.

Inductive FinOptionTypes : Type :=
| EUROPEAN_CALL
| EUROPEAN_PUT.

Definition FinSolverTypes_eqb (a b : FinSolverTypes) : bool :=
  match a, b with
  | CONJUGATE_GRADIENT, CONJUGATE_GRADIENT
  | NELDER_MEAD, NELDER_MEAD
  | NELDER_MEAD_NUMBA, NELDER_MEAD_NUMBA => true
  | _, _ => false
  end.

(** What the module does to the outside world, in order: the optimizer and
    root-solver calls it makes, the calibrations it starts, what it prints. *)
Inductive event : Type :=
| EvPrint (msg : string)
| EvNelderMead (x0 : list float) (tol_f tol_x : float) (max_iter : nat)
| EvMinimize (method : string) (x0 : list float) (tol : float)
| EvCalibrate (timeIndex : nat) (xinits : list float) (solver : FinSolverTypes)
| EvSolveStrike (option_type_value : Z) (deltaTarget initialGuess : float)
                (parameters : list float)
| EvSecantIter (p1 p : float).

Definition M (A : Type) : Type := (list event * result A)%type.

Definition ret {A} (a : A) : M A := ([], Ok a).
Definition raise {A} (e : exn) : M A := ([], Raise e).
Definition lift {A} (r : result A) : M A := ([], r).
Definition log (ev : event) : M unit := ([ev], Ok tt).

Definition bind {A B} (m : M A) (k : A -> M B) : M B :=
  match m with
  | (l1, Ok a) => let (l2, r) := k a in (l1 ++ l2, r)
  | (l1, Raise e) => (l1, Raise e)
  end.

(** [try: m  except: h] with a bare [except]. *)
Definition try_except {A} (m : M A) (h : M A) : M A :=
  match m with
  | (l1, Ok a) => (l1, Ok a)
  | (l1, Raise _) => let (l2, r) := h in (l1 ++ l2, r)
  end.

Declare Scope M_scope.
Delimit Scope M_scope with M.
Notation "x <- c ;; k" := (bind c (fun x => k))
  (at level 61, c at next level, right associativity) : M_scope.
Notation "c ;;; k" := (bind c (fun _ => k))
  (at level 61, right associativity) : M_scope.

(** What SciPy's [minimize] returns: the module reads [x] only. *)
Record OptimizeResult : Type := {
  x : list float;
  success : bool
}.

(** The objective handed to an optimizer. *)
Definition objective : Type := list float -> result float.

(* ================================================================== *)
(** ** Collaborators                                                   *)
(* ================================================================== *)

Class Externals : Type := {
  (** [utils.date.Date], its subtraction (a number of days, which may carry
      a fraction of a day) and [utils.global_vars.gDaysInYear]. *)
  Date : Type;
  date_sub : Date -> Date -> float;
  gDaysInYear : float;
  (** [market.discount.curve.DiscountCurve] and its [_df(t)]. *)
  DiscountCurve : Type;
  curve_df : DiscountCurve -> float -> float;
  (** NumPy's [exp] and [log]. *)
  np_exp : float -> float;
  np_log : float -> float;
  (** The [.value] of the two enumerations. *)
  vol_type_value : FinVolFunctionTypes -> Z;
  option_type_value : FinOptionTypes -> Z;
  (** The smile formulas of [models.volatility_fns] and [models.sabr]:
      params, forward, strike, time. *)
  vol_function_clark : list float -> float -> float -> float -> float;
  vol_Function_bloomberg : list float -> float -> float -> float -> float;
  vol_function_svi : list float -> float -> float -> float -> float;
  vol_function_ssvi : list float -> float -> float -> float -> float;
  vol_function_sabr : list float -> float -> float -> float -> float;
  vol_function_sabr_BETA_ONE : list float -> float -> float -> float -> float;
  vol_function_sabr_BETA_HALF : list float -> float -> float -> float -> float;
  (** [models.black_scholes_analytic.bs_delta(s, t, k, r, q, v, type)] and
      [utils.math.norminvcdf]. *)
  bs_delta : float -> float -> float -> float -> float -> float -> Z -> float;
  norminvcdf : float -> float;
  (** [utils.solver_nm.nelder_mead(fun, x0, tol_f, tol_x, max_iter)] and
      [scipy.optimize.minimize(fun, x0, method, tol)]: either may raise. *)
  nelder_mead : objective -> list float -> float -> float -> nat ->
                result (list float);
  minimize : objective -> list float -> string -> float ->
             result OptimizeResult;
  (** The second abscissa the secant iteration starts from. *)
  secant_start : float -> float
}.

(* ================================================================== *)
(** ** The module's functions                                          *)
(* ================================================================== *)

Section Model.

Context {X : Externals}.

Local Open Scope float_scope.

(** The literals [1e-6] and [1e-8], as the binary64 values Python reads. *)
Definition tol_1e_6 : float := 0x1.0c6f7a0b5ed8dp-20.
Definition tol_1e_8 : float := 0x1.5798ee2308c3ap-27.

(** [volFunction(vol_function_type_value, params, f, k, t)]. *)
Definition volFunction (vol_function_type_value : Z) (params : list float)
           (f k t : float) : result float :=
  if (vol_function_type_value =? vol_type_value CLARK)%Z then
    Ok (vol_function_clark params f k t)
  else if (vol_function_type_value =? vol_type_value SABR_BETA_ONE)%Z then
    Ok (vol_function_sabr_BETA_ONE params f k t)
  else if (vol_function_type_value =? vol_type_value SABR_BETA_HALF)%Z then
    Ok (vol_function_sabr_BETA_HALF params f k t)
  else if (vol_function_type_value =? vol_type_value BBG)%Z then
    Ok (vol_Function_bloomberg params f k t)
  else if (vol_function_type_value =? vol_type_value SABR)%Z then
    Ok (vol_function_sabr params f k t)
  else if (vol_function_type_value =? vol_type_value CLARK5)%Z then
    Ok (vol_function_clark params f k t)
  else if (vol_function_type_value =? vol_type_value SVI)%Z then
    Ok (vol_function_svi params f k t)
  else if (vol_function_type_value =? vol_type_value SSVI)%Z then
    Ok (vol_function_ssvi params f k t)
  else Raise (FinError "Unknown Model Type").

(** The argument tuple of [_obj]. *)
Record obj_args : Type := {
  oa_s : float; oa_t : float; oa_r : float; oa_q : float;
  oa_strikes : list float;
  oa_index : nat;
  oa_volatility_grid : list (list float);
  oa_volTypeValue : Z
}.

(** The body of the loop of [_obj], for strike number [i]. *)
Definition _obj_term (params : list float) (a : obj_args) (f : float)
           (tot : float) (i : nat) : result float :=
  (k <- getitem (oa_strikes a) i ;;
   fittedVol <- volFunction (oa_volTypeValue a) params f k (oa_t a) ;;
   row <- getitem (oa_volatility_grid a) (oa_index a) ;;
   mktVol <- getitem row i ;;
   let diff := fittedVol - mktVol in
   Ok (tot + diff * diff))%result.

Fixpoint for_result {S} (body : S -> nat -> result S) (st : S)
         (range : list nat) : result S :=
  match range with
  | [] => Ok st
  | i :: rest =>
      match body st i with
      | Ok st' => for_result body st' rest
      | Raise e => Raise e
      end
  end.

(** [_obj(params, *args)]: the sum of squared fitting errors of one expiry. *)
Definition _obj (a : obj_args) (params : list float) : result float :=
  (let f := oa_s a * np_exp ((oa_r a - oa_q a) * oa_t a) in
   row0 <- getitem (oa_volatility_grid a) 0 ;;
   let numStrikes := length row0 in
   for_result (_obj_term params a f) 0 (seq 0 numStrikes))%result.

(** A call of an optimizer: recorded, then made. *)
Definition call_nelder_mead (func : objective) (x0 : list float)
           (tol_f tol_x : float) (max_iter : nat) : M (list float) :=
  (log (EvNelderMead x0 tol_f tol_x max_iter) ;;;
   lift (nelder_mead func x0 tol_f tol_x max_iter))%M.

Definition call_minimize (func : objective) (x0 : list float)
           (method : string) (tol : float) : M OptimizeResult :=
  (log (EvMinimize method x0 tol) ;;;
   lift (minimize func x0 method tol))%M.

(** [_solveToHorizon]: the per-expiry calibration.  [xopt] is a Python local
    that the handler may leave unbound. *)
Definition _solveToHorizon (s t r q : float) (strikes : list float)
           (timeIndex : nat) (volatility_grid : list (list float))
           (volTypeValue : Z) (xinits : list float)
           (finSolverType : FinSolverTypes) : M (list float) :=
  (let tol := tol_1e_6 in
   let args := {| oa_s := s; oa_t := t; oa_r := r; oa_q := q;
                  oa_strikes := strikes; oa_index := timeIndex;
                  oa_volatility_grid := volatility_grid;
                  oa_volTypeValue := volTypeValue |} in
   log (EvCalibrate timeIndex xinits finSolverType) ;;;
   xopt <- try_except
             (match finSolverType with
              | NELDER_MEAD_NUMBA =>
                  xopt <- call_nelder_mead (_obj args) xinits tol tol 1000 ;;
                  ret (Some xopt)
              | NELDER_MEAD =>
                  opt <- call_minimize (_obj args) xinits "Nelder-Mead" tol ;;
                  ret (Some (x opt))
              | CONJUGATE_GRADIENT =>
                  opt <- call_minimize (_obj args) xinits "CG" tol ;;
                  ret (Some (x opt))
              end)
             (if negb (FinSolverTypes_eqb finSolverType CONJUGATE_GRADIENT)
              then
                log (EvPrint "Failed to converge, will try CG") ;;;
                opt <- call_minimize (_obj args) xinits "CG" tol ;;
                ret (Some (x opt))
              else ret None) ;;
   match xopt with
   | Some v => ret v
   | None => raise (UnboundLocalError "xopt")
   end)%M.

(** The argument tuple of [_deltaFit]. *)
Record delta_args : Type := {
  da_volTypeValue : Z;
  da_s : float; da_t : float; da_r : float; da_q : float;
  da_option_type_value : Z;
  da_inverseDeltaTarget : float;
  da_params : list float
}.

(** [_deltaFit(k, *args)]: the objective of the strike search, in
    inverse-normal-CDF space. *)
Definition _deltaFit (a : delta_args) (k : float) : result float :=
  (let f := da_s a * np_exp ((da_r a - da_q a) * da_t a) in
   v <- volFunction (da_volTypeValue a) (da_params a) f k (da_t a) ;;
   let deltaOut :=
     bs_delta (da_s a) (da_t a) k (da_r a) (da_q a) v
              (da_option_type_value a) in
   let inverseDeltaOut := norminvcdf (abs deltaOut) in
   let invObjFn := da_inverseDeltaTarget a - inverseDeltaOut in
   Ok invObjFn)%result.

(** Modelled from the spec: the root solver [utils.solver_1d.newton_secant]
    is imported by the module and absent from the sources.  The spec (4.2)
    has it iterate on the strike from an initial guess, stop as soon as an
    iterate is within the tolerance, run at most the given number of
    iterations, and surface [StrikeSolveFailed] when that budget is spent,
    "rather than returning a stale guess".  The iterate is the secant one;
    each iteration is recorded with the abscissa it started from. *)
Fixpoint secant_loop (func : float -> result float) (tol : float)
         (budget : nat) (p0 q0 p1 q1 : float) : M float :=
  match budget with
  | O => raise StrikeSolveFailed
  | S budget' =>
      (let p := p1 - q1 * (p1 - p0) / (q1 - q0) in
       log (EvSecantIter p1 p) ;;;
       if abs (p - p1) <? tol then ret p
       else
         q <- lift (func p) ;;
         secant_loop func tol budget' p1 q1 p q)%M
  end.

(** Modelled from the spec: the entry of that solver, as the module calls
    it: [newton_secant(func, x0, args, tol, maxiter)]. *)
Definition newton_secant (func : float -> result float) (x0 : float)
           (tol : float) (maxiter : nat) : M float :=
  (let p0 := x0 in
   let p1 := secant_start x0 in
   q0 <- lift (func p0) ;;
   q1 <- lift (func p1) ;;
   secant_loop func tol maxiter p0 q0 p1 q1)%M.

(** [_solveForSmileStrike]: the strike whose delta is [deltaTarget]. *)
Definition _solveForSmileStrike (s t r q : float) (option_type_value : Z)
           (volatilityTypeValue : Z) (deltaTarget initialGuess : float)
           (parameters : list float) : M float :=
  (log (EvSolveStrike option_type_value deltaTarget initialGuess parameters) ;;;
   let inverseDeltaTarget := norminvcdf (abs deltaTarget) in
   let argtuple := {| da_volTypeValue := volatilityTypeValue;
                      da_s := s; da_t := t; da_r := r; da_q := q;
                      da_option_type_value := option_type_value;
                      da_inverseDeltaTarget := inverseDeltaTarget;
                      da_params := parameters |} in
   K <- newton_secant (_deltaFit argtuple) initialGuess tol_1e_8 50 ;;
   ret K)%M.

(* ------------------------------------------------------------------ *)
(** *** The surface object                                             *)
(* ------------------------------------------------------------------ *)

(** The attributes of an [EquityVolSurface] instance. *)
Record EquityVolSurface : Type := {
  _valuation_date : Date;
  _stock_price : float;
  _discount_curve : DiscountCurve;
  _dividend_curve : DiscountCurve;
  _strikes : list float;
  _numStrikes : nat;
  _expiry_dates : list Date;
  _numExpiryDates : nat;
  _volatility_grid : list (list float);
  _volatility_function_type : FinVolFunctionTypes;
  _parameters : list (list float);
  _texp : list float;
  _F0T : list float;
  _r : list float;
  _q : list float
}.

(** The year fraction [(expiry_date - valuation_date) / gDaysInYear]. *)
Definition year_frac (expiry_date valuation_date : Date) : float :=
  date_sub expiry_date valuation_date / gDaysInYear.

(** The parameter count [_buildVolSurface] gives each family. *)
Definition num_parameters_of (ty : FinVolFunctionTypes) : nat :=
  match ty with
  | CLARK => 3
  | SABR_BETA_ONE => 3
  | SABR_BETA_HALF => 3
  | BBG => 3
  | SABR => 4
  | CLARK5 => 5
  | SVI => 5
  | SSVI => 5
  end.

(** The four vectors the first loop of [_buildVolSurface] fills. *)
Record term_arrays : Type := {
  ta_texp : list float;
  ta_r : list float;
  ta_q : list float;
  ta_F0T : list float
}.

(** The body of that loop, for expiry number [i]. *)
Definition term_step (s : float) (spotDate : Date)
           (expiry_dates : list Date) (discount dividend : DiscountCurve)
           (a : term_arrays) (i : nat) : result term_arrays :=
  (expiry_date <- getitem expiry_dates i ;;
   let texp := year_frac expiry_date spotDate in
   let disDF := curve_df discount texp in
   let divDF := curve_df dividend texp in
   let f := s * divDF / disDF in
   texp' <- setitem (ta_texp a) i texp ;;
   r' <- setitem (ta_r a) i (- np_log disDF / texp) ;;
   q' <- setitem (ta_q a) i (- np_log divDF / texp) ;;
   F' <- setitem (ta_F0T a) i f ;;
   Ok {| ta_texp := texp'; ta_r := r'; ta_q := q'; ta_F0T := F' |})%result.

(** [a[i,:] = res] on a NumPy matrix with rows of length [row_len]; a vector
    of length one is broadcast, any other length mismatch is refused. *)
Definition assign_row (row_len : nat) (res : list float) :
  result (list float) :=
  if (length res =? row_len)%nat then Ok res
  else match res with
       | [v] => Ok (repeat v row_len)
       | _ => Raise (ValueError "could not broadcast input array")
       end.

Fixpoint for_M {S} (body : S -> nat -> M S) (st : S) (range : list nat)
  : M S :=
  match range with
  | [] => ret st
  | i :: rest => (st' <- body st i ;; for_M body st' rest)%M
  end.

(** The body of the calibration loop of [_buildVolSurface], for expiry
    number [i]; the state is the parameter matrix and the list [xinits]. *)
Definition calib_step (s : float) (a : term_arrays) (strikes : list float)
           (volatility_grid : list (list float)) (volTypeValue : Z)
           (num_parameters : nat) (finSolverType : FinSolverTypes)
           (st : list (list float) * list (list float)) (i : nat)
  : M (list (list float) * list (list float)) :=
  (let (parameters, xinits) := st in
   t <- lift (getitem (ta_texp a) i) ;;
   r <- lift (getitem (ta_r a) i) ;;
   q <- lift (getitem (ta_q a) i) ;;
   xinit_i <- lift (getitem xinits i) ;;
   res <- _solveToHorizon s t r q strikes i volatility_grid volTypeValue
                          xinit_i finSolverType ;;
   row <- lift (assign_row num_parameters res) ;;
   parameters' <- lift (setitem parameters i row) ;;
   ret (parameters', xinits ++ [res]))%M.

(** [_buildVolSurface(self, finSolverType)]. *)
Definition _buildVolSurface (self : EquityVolSurface)
           (finSolverType : FinSolverTypes) : M EquityVolSurface :=
  (let s := _stock_price self in
   let num_parameters := num_parameters_of (_volatility_function_type self) in
   let numExpiryDates := _numExpiryDates self in
   let parameters0 := repeat (np_zeros num_parameters) numExpiryDates in
   let arrays0 := {| ta_texp := np_zeros numExpiryDates;
                     ta_r := np_zeros numExpiryDates;
                     ta_q := np_zeros numExpiryDates;
                     ta_F0T := np_zeros numExpiryDates |} in
   let spotDate := _valuation_date self in
   a <- lift (for_result
                (term_step s spotDate (_expiry_dates self)
                           (_discount_curve self) (_dividend_curve self))
                arrays0 (seq 0 numExpiryDates)) ;;
   let volTypeValue := vol_type_value (_volatility_function_type self) in
   let xinits := [np_zeros num_parameters] in
   st <- for_M (calib_step s a (_strikes self) (_volatility_grid self)
                           volTypeValue num_parameters finSolverType)
               (parameters0, xinits) (seq 0 numExpiryDates) ;;
   ret {| _valuation_date := _valuation_date self;
          _stock_price := _stock_price self;
          _discount_curve := _discount_curve self;
          _dividend_curve := _dividend_curve self;
          _strikes := _strikes self;
          _numStrikes := _numStrikes self;
          _expiry_dates := _expiry_dates self;
          _numExpiryDates := _numExpiryDates self;
          _volatility_grid := _volatility_grid self;
          _volatility_function_type := _volatility_function_type self;
          _parameters := fst st;
          _texp := ta_texp a;
          _F0T := ta_F0T a;
          _r := ta_r a;
          _q := ta_q a |})%M.

(** [EquityVolSurface.__init__]. *)
Definition __init__ (valuation_date : Date) (stock_price : float)
           (discount_curve dividend_curve : DiscountCurve)
           (expiry_dates : list Date) (strikes : list float)
           (volatility_grid : list (list float))
           (volatility_function_type : FinVolFunctionTypes)
           (finSolverType : FinSolverTypes) : M EquityVolSurface :=
  (let nExpiryDates := length expiry_dates in
   let nStrikes := length strikes in
   let n := length volatility_grid in
   row0 <- lift (getitem volatility_grid 0) ;;
   let m := length row0 in
   if negb (n =? nExpiryDates)%nat then
     raise (FinError "1st dimension of vol grid is not nExpiryDates")
   else if negb (m =? nStrikes)%nat then
     raise (FinError "2nd dimension of the vol matrix is not nStrikes")
   else
     _buildVolSurface
       {| _valuation_date := valuation_date;
          _stock_price := stock_price;
          _discount_curve := discount_curve;
          _dividend_curve := dividend_curve;
          _strikes := strikes;
          _numStrikes := length strikes;
          _expiry_dates := expiry_dates;
          _numExpiryDates := length expiry_dates;
          _volatility_grid := volatility_grid;
          _volatility_function_type := volatility_function_type;
          _parameters := [];
          _texp := [];
          _F0T := [];
          _r := [];
          _q := [] |}
       finSolverType)%M.

(* ------------------------------------------------------------------ *)
(** *** Queries                                                        *)
(* ------------------------------------------------------------------ *)

(** The bracketing loop shared by the two queries:
    [for i in range(1, num_curves): if texp <= t[i] and texp > t[i-1]: ...
    break], entered at [i] with [todo] iterations left; the indices keep
    their initial value [(0, 0)] when no pair matches. *)
Fixpoint bracket_scan (texp : float) (ts : list float) (i todo : nat)
  : result (nat * nat) :=
  match todo with
  | O => Ok (0, 0)%nat
  | S todo' =>
      (ti <- getitem ts i ;;
       if texp <=? ti then
         tim1 <- getitem ts (i - 1) ;;
         if tim1 <? texp then Ok (i - 1, i)%nat
         else bracket_scan texp ts (S i) todo'
       else bracket_scan texp ts (S i) todo')%result
  end.

(** The bracket [(index0, index1)] of [volatilityFromStrikeDate]. *)
Definition bracket_strike (self : EquityVolSurface) (texp : float)
  : result (nat * nat) :=
  (let num_curves := _numExpiryDates self in
   if (num_curves =? 1)%nat then Ok (0, 0)%nat
   else
     t_first <- getitem (_texp self) 0 ;;
     if texp <=? t_first then Ok (0, 0)%nat
     else
       t_last <- getitem_last (_texp self) ;;
       if t_last <=? texp then
         Ok (length (_texp self) - 1, length (_texp self) - 1)%nat
       else bracket_scan texp (_texp self) 1 (num_curves - 1))%result.

(** The bracket of [volatilityFromDeltaDate]: the third test is strict. *)
Definition bracket_delta (self : EquityVolSurface) (texp : float)
  : result (nat * nat) :=
  (let num_curves := _numExpiryDates self in
   if (num_curves =? 1)%nat then Ok (0, 0)%nat
   else
     t_first <- getitem (_texp self) 0 ;;
     if texp <=? t_first then Ok (0, 0)%nat
     else
       t_last <- getitem_last (_texp self) ;;
       if t_last <? texp then
         Ok (length (_texp self) - 1, length (_texp self) - 1)%nat
       else bracket_scan texp (_texp self) 1 (num_curves - 1))%result.

(** The interpolated total variance
    [((texp-t0) * vart1 + (t1-texp) * vart0) / (t1 - t0)]. *)
Definition interp (texp t0 t1 y0 y1 : float) : float :=
  ((texp - t0) * y1 + (t1 - texp) * y0) / (t1 - t0).

(** [self.volatilityFromStrikeDate(K, expiry_date)]. *)
Definition volatilityFromStrikeDate (self : EquityVolSurface) (K : float)
           (expiry_date : Date) : result float :=
  (let texp := year_frac expiry_date (_valuation_date self) in
   let volTypeValue := vol_type_value (_volatility_function_type self) in
   br <- bracket_strike self texp ;;
   let (index0, index1) := br in
   fwd0 <- getitem (_F0T self) index0 ;;
   fwd1 <- getitem (_F0T self) index1 ;;
   t0 <- getitem (_texp self) index0 ;;
   t1 <- getitem (_texp self) index1 ;;
   params0 <- getitem (_parameters self) index0 ;;
   vol0 <- volFunction volTypeValue params0 fwd0 K t0 ;;
   vol1 <- (if negb (index1 =? index0)%nat then
              params1 <- getitem (_parameters self) index1 ;;
              volFunction volTypeValue params1 fwd1 K t1
            else Ok vol0) ;;
   let vart0 := vol0 * vol0 * t0 in
   let vart1 := vol1 * vol1 * t1 in
   if tol_1e_6 <? abs (t1 - t0) then
     let vart := interp texp t0 t1 vart0 vart1 in
     if vart <? 0 then Raise (FinError "Negative variance.")
     else Ok (sqrt (vart / texp))
   else Ok vol1)%result.

(** [self.volatilityFromDeltaDate(callDelta, expiry_date, deltaMethod)]:
    the pair [(volt, kt)].  [K1] is a local the second solve binds. *)
Definition volatilityFromDeltaDate {DeltaMethod : Type}
           (self : EquityVolSurface) (callDelta : float)
           (expiry_date : Date) (deltaMethod : option DeltaMethod)
  : M (float * float) :=
  (let texp := year_frac expiry_date (_valuation_date self) in
   let volTypeValue := vol_type_value (_volatility_function_type self) in
   let s := _stock_price self in
   br <- lift (bracket_delta self texp) ;;
   let (index0, index1) := br in
   fwd0 <- lift (getitem (_F0T self) index0) ;;
   fwd1 <- lift (getitem (_F0T self) index1) ;;
   t0 <- lift (getitem (_texp self) index0) ;;
   t1 <- lift (getitem (_texp self) index1) ;;
   let initialGuess := _stock_price self in
   r0 <- lift (getitem (_r self) index0) ;;
   q0 <- lift (getitem (_q self) index0) ;;
   params0 <- lift (getitem (_parameters self) index0) ;;
   K0 <- _solveForSmileStrike s texp r0 q0
                              (option_type_value EUROPEAN_CALL)
                              volTypeValue callDelta initialGuess params0 ;;
   vol0 <- lift (volFunction volTypeValue params0 fwd0 K0 t0) ;;
   second <- (if negb (index1 =? index0)%nat then
                r1 <- lift (getitem (_r self) index1) ;;
                q1 <- lift (getitem (_q self) index1) ;;
                params1 <- lift (getitem (_parameters self) index1) ;;
                K1 <- _solveForSmileStrike s texp r1 q1
                                           (option_type_value EUROPEAN_CALL)
                                           volTypeValue callDelta
                                           initialGuess params1 ;;
                vol1 <- lift (volFunction volTypeValue params1 fwd1 K1 t1) ;;
                ret (Some K1, vol1)
              else ret (None, vol0)) ;;
   let (K1, vol1) := second in
   let vart0 := vol0 * vol0 * t0 in
   let vart1 := vol1 * vol1 * t1 in
   if tol_1e_6 <? abs (t1 - t0) then
     let vart := interp texp t0 t1 vart0 vart1 in
     match K1 with
     | None => raise (UnboundLocalError "K1")
     | Some K1 =>
         let kt := interp texp t0 t1 K0 K1 in
         if vart <? 0 then
           raise (FinError "Failed interpolation due to negative variance.")
         else ret (sqrt (vart / texp), kt)
     end
   else ret (vol0, K0))%M.

(** The read operations a caller can issue on a built surface, and what a
    call leaves behind: the object, which neither method assigns to, and the
    logged outcome. *)
Inductive query {DeltaMethod : Type} : Type :=
| QStrike (K : float) (expiry_date : Date)
| QDelta (callDelta : float) (expiry_date : Date)
         (deltaMethod : option DeltaMethod).

Arguments query : clear implicits.

Inductive answer : Type :=
| AVol (volt : float)
| AVolStrike (volt kt : float).

Definition perform {DeltaMethod : Type} (self : EquityVolSurface)
           (qy : query DeltaMethod) : EquityVolSurface * M answer :=
  match qy with
  | QStrike K d =>
      (self, (v <- lift (volatilityFromStrikeDate self K d) ;; ret (AVol v))%M)
  | QDelta cd d dm =>
      (self, (vk <- volatilityFromDeltaDate self cd d dm ;;
              ret (AVolStrike (fst vk) (snd vk)))%M)
  end.

Fixpoint perform_all {DeltaMethod : Type} (self : EquityVolSurface)
         (qs : list (query DeltaMethod)) : EquityVolSurface :=
  match qs with
  | [] => self
  | qy :: rest => perform_all (fst (perform self qy)) rest
  end.

End Model.

Arguments query {X} DeltaMethod.

(* ================================================================== *)
(** ** The calibration report                                          *)
(* ================================================================== *)

Section ModelReports.

Context {X : Externals}.

Local Open Scope float_scope.

(** What [checkCalibration] prints, line by line: the rule of [=] signs,
    the two labelled lines of the verbose header, and one row per grid cell
    with the arguments of its format, [(expiry_date, strike,
    fittedVol*100.0, mktVol*100, diff*100)]. *)
Inductive printed : Type :=
| PRule
| PValueDate (valuation_date : Date)
| PStockPrice (stock_price : float)
| PRow (expiry_date : Date) (strike fittedVol100 mktVol100 diff100 : float).

(** The body of the inner loop of [checkCalibration], for the expiry [i]
    with date [expiry_date] and the strike number [j]. *)
Definition checkCalibration_cell (self : EquityVolSurface) (i : nat)
           (expiry_date : Date) (j : nat) : result printed :=
  (strike <- getitem (_strikes self) j ;;
   fittedVol <- volatilityFromStrikeDate self strike expiry_date ;;
   row <- getitem (_volatility_grid self) i ;;
   mktVol <- getitem row j ;;
   let diff := fittedVol - mktVol in
   Ok (PRow expiry_date strike (fittedVol * 100) (mktVol * 100)
            (diff * 100)))%result.

(** A loop whose turns print: what was printed before a turn raised is
    kept. *)
Fixpoint for_print (body : nat -> list printed * result unit)
         (range : list nat) : list printed * result unit :=
  match range with
  | [] => ([], Ok tt)
  | i :: rest =>
      match body i with
      | (out, Ok _) =>
          let (out', r) := for_print body rest in (out ++ out', r)
      | (out, Raise e) => (out, Raise e)
      end
  end.

(** [self.checkCalibration(verbose, tol)]: neither [tol] nor [K_dummy] is
    read. *)
Definition checkCalibration (self : EquityVolSurface) (verbose : bool)
           (tol : float) : list printed * result unit :=
  let header :=
    if verbose
    then [PRule; PValueDate (_valuation_date self);
          PStockPrice (_stock_price self); PRule]
    else [] in
  let (out, r) :=
    for_print
      (fun i =>
         match getitem (_expiry_dates self) i with
         | Raise e => ([], Raise e)
         | Ok expiry_date =>
             let (rows, r) :=
               for_print
                 (fun j =>
                    match checkCalibration_cell self i expiry_date j with
                    | Ok line => ([line], Ok tt)
                    | Raise e => ([], Raise e)
                    end)
                 (seq 0 (_numStrikes self)) in
             (PRule :: rows, r)
         end)
      (seq 0 (_numExpiryDates self)) in
  match r with
  | Ok _ => (header ++ out ++ [PRule], Ok tt)
  | Raise e => (header ++ out, Raise e)
  end.

End ModelReports.

Unset Implicit Arguments.

(* ================================================================== *)
(** ** Vocabulary of the specification                                 *)
(* ================================================================== *)

Section Vocabulary.

Context {X : Externals}.

Local Open Scope float_scope.

(** The arguments [_solveToHorizon] hands to the objective. *)
Definition horizon_args (s t r q : float) (strikes : list float)
           (timeIndex : nat) (volatility_grid : list (list float))
           (volTypeValue : Z) : obj_args :=
  {| oa_s := s; oa_t := t; oa_r := r; oa_q := q;
     oa_strikes := strikes; oa_index := timeIndex;
     oa_volatility_grid := volatility_grid;
     oa_volTypeValue := volTypeValue |}.

(** What the primary optimizer of a solver choice returns on an objective:
    the vector [_solveToHorizon] would take from it, or what it raises. *)
Definition primary_outcome (finSolverType : FinSolverTypes)
           (func : objective) (xinits : list float) : result (list float) :=
  match finSolverType with
  | NELDER_MEAD_NUMBA => nelder_mead func xinits tol_1e_6 tol_1e_6 1000
  | NELDER_MEAD =>
      match minimize func xinits "Nelder-Mead" tol_1e_6 with
      | Ok opt => Ok (x opt)
      | Raise e => Raise e
      end
  | CONJUGATE_GRADIENT =>
      match minimize func xinits "CG" tol_1e_6 with
      | Ok opt => Ok (x opt)
      | Raise e => Raise e
      end
  end.

(** The record of the primary call. *)
Definition primary_event (finSolverType : FinSolverTypes)
           (xinits : list float) : event :=
  match finSolverType with
  | NELDER_MEAD_NUMBA => EvNelderMead xinits tol_1e_6 tol_1e_6 1000
  | NELDER_MEAD => EvMinimize "Nelder-Mead" xinits tol_1e_6
  | CONJUGATE_GRADIENT => EvMinimize "CG" xinits tol_1e_6
  end.

(** The optimizer calls in a log. *)
Definition is_optimizer_call (ev : event) : bool :=
  match ev with
  | EvNelderMead _ _ _ _ | EvMinimize _ _ _ => true
  | _ => false
  end.

(** The iterations of the strike search in a log, and whether one of them
    ended within the tolerance of the abscissa it started from. *)
Definition is_secant_iter (ev : event) : bool :=
  match ev with
  | EvSecantIter _ _ => true
  | _ => false
  end.

Definition iter_converged (tol : float) (ev : event) : bool :=
  match ev with
  | EvSecantIter p1 p => abs (p - p1) <? tol
  | _ => false
  end.

Definition none_converged (tol : float) (l : list event) : bool :=
  forallb (fun ev => negb (iter_converged tol ev)) l.

(** The option rights handed to [_solveForSmileStrike], call by call. *)
Definition solve_rights (l : list event) : list Z :=
  flat_map (fun ev => match ev with
                      | EvSolveStrike otv _ _ _ => [otv]
                      | _ => []
                      end) l.

(** The solver calls of a run: all with the right [c], at most [n]. *)
Definition rights_within (c : Z) (n : nat) (l : list event) : Prop :=
  Forall (fun otv => otv = c) (solve_rights l) /\
  (length (solve_rights l) <= n)%nat.

(** The smile of tenor [i] at the strike [K]: [volFunction] on that tenor's
    own fitted parameters, forward and time. *)
Definition smile_at (self : EquityVolSurface) (K : float) (i : nat)
  : result float :=
  (fwd <- getitem (_F0T self) i ;;
   t <- getitem (_texp self) i ;;
   params <- getitem (_parameters self) i ;;
   volFunction (vol_type_value (_volatility_function_type self))
               params fwd K t)%result.

(** Tenors in strictly ascending order. *)
Fixpoint ascending (ts : list float) : bool :=
  match ts with
  | a :: tl =>
      match tl with
      | b :: _ => (a <? b) && ascending tl
      | [] => true
      end
  | [] => true
  end.

(** The calibrations started in a log, in order: which expiry, from which
    initial guess. *)
Definition calibrations (l : list event) : list (nat * list float) :=
  flat_map (fun ev => match ev with
                      | EvCalibrate i xinits _ => [(i, xinits)]
                      | _ => []
                      end) l.

End Vocabulary.

(* ================================================================== *)
(** ** Vocabulary for the behaviour of the remaining code              *)
(* ================================================================== *)

Section VocabularyMore.

Context {X : Externals}.

Local Open Scope float_scope.

(** The smile formula [volFunction] is written to reach for a family. *)
Definition formula_of (ty : FinVolFunctionTypes)
  : list float -> float -> float -> float -> float :=
  match ty with
  | CLARK => vol_function_clark
  | SABR_BETA_ONE => vol_function_sabr_BETA_ONE
  | SABR_BETA_HALF => vol_function_sabr_BETA_HALF
  | BBG => vol_Function_bloomberg
  | SABR => vol_function_sabr
  | CLARK5 => vol_function_clark
  | SVI => vol_function_svi
  | SSVI => vol_function_ssvi
  end.

(** The members of the enumeration have distinct values. *)
Definition values_distinct : Prop :=
  forall a b : FinVolFunctionTypes,
    vol_type_value a = vol_type_value b -> a = b.

(** The shape of a surface object: at least one expiry, one entry per
    expiry in every per-expiry vector, and parameter rows of the family's
    parameter count. *)
Definition well_formed (self : EquityVolSurface) : bool :=
  let n := _numExpiryDates self in
  (1 <=? n)%nat &&
  (length (_expiry_dates self) =? n)%nat &&
  (length (_texp self) =? n)%nat &&
  (length (_F0T self) =? n)%nat &&
  (length (_r self) =? n)%nat &&
  (length (_q self) =? n)%nat &&
  (length (_parameters self) =? n)%nat &&
  forallb (fun row =>
             (length row =?
              num_parameters_of (_volatility_function_type self))%nat)
          (_parameters self).

(** The expiries whose calibration was started, in the order of the log. *)
Definition calibrated_expiries (l : list event) : list nat :=
  map fst (calibrations l).

(** A bracket that reads well: both indices are rows of the surface, and
    they coincide or are two adjacent tenors that enclose the query time,
    [t[i0] < tau <= t[i1]]. *)
Definition bracket_reads_well (self : EquityVolSurface) (tau : float)
           (br : result (nat * nat)) : Prop :=
  exists i0 i1,
    br = Ok (i0, i1) /\
    (i1 < _numExpiryDates self)%nat /\
    (i0 = i1 \/
     (i1 = S i0 /\
      exists t0 t1,
        nth_error (_texp self) i0 = Some t0 /\
        nth_error (_texp self) i1 = Some t1 /\
        (t0 <? tau) = true /\ (tau <=? t1) = true)).

(** The delta query as it runs on one tenor [i]: the strike is solved for
    the query time [tau] under that tenor's rates and parameters, and the
    volatility is that tenor's smile at the solved strike. *)
Definition delta_at_tenor (self : EquityVolSurface) (callDelta tau : float)
           (i : nat) : M (float * float) :=
  (fwd <- lift (getitem (_F0T self) i) ;;
   t <- lift (getitem (_texp self) i) ;;
   r <- lift (getitem (_r self) i) ;;
   q <- lift (getitem (_q self) i) ;;
   params <- lift (getitem (_parameters self) i) ;;
   K0 <- _solveForSmileStrike
           (_stock_price self) tau r q (option_type_value EUROPEAN_CALL)
           (vol_type_value (_volatility_function_type self))
           callDelta (_stock_price self) params ;;
   vol0 <- lift (volFunction
                   (vol_type_value (_volatility_function_type self))
                   params fwd K0 t) ;;
   ret (vol0, K0))%M.

(** The grid has a row for every expiry, and in each of them an entry for
    every strike the surface counts; the strike list is as long as that
    count. *)
Definition grid_covers (self : EquityVolSurface) : bool :=
  (_numStrikes self <=? length (_strikes self))%nat &&
  (_numExpiryDates self <=? length (_volatility_grid self))%nat &&
  forallb (fun row => (_numStrikes self <=? length row)%nat)
          (firstn (_numExpiryDates self) (_volatility_grid self)).

(** The rows of cells in a printed report. *)
Definition is_row (line : printed) : bool :=
  match line with
  | PRow _ _ _ _ _ => true
  | _ => false
  end.

End VocabularyMore.

(* ================================================================== *)
(** ** A concrete market, for running the model                        *)
(* ================================================================== *)

Module Demo.

Local Open Scope float_scope.

(** Dates are day numbers (with a fraction of a day), a year has 365 days,
    both curves are flat at a zero rate (every discount factor is 1, where
    [np.log] is 0 and [np.exp] of the zero drift is 1), every smile formula is
    the flat smile at its first parameter, and the delta of a call falls from
    1 to 0 as the strike grows. *)
Definition flat_smile (params : list float) (f k t : float) : float :=
  nth 0 params 0.

Definition vol_value (ty : FinVolFunctionTypes) : Z :=
  match ty with
  | CLARK => 0 | SABR => 1 | SABR_BETA_ONE => 2 | SABR_BETA_HALF => 3
  | BBG => 4 | CLARK5 => 5 | SVI => 6 | SSVI => 7
  end.

Definition opt_value (ty : FinOptionTypes) : Z :=
  match ty with
  | EUROPEAN_CALL => 1
  | EUROPEAN_PUT => 2
  end.

(** The optimizers are stand-ins.  The simplex searches raise.  Conjugate
    gradient is a search over three levels of the first parameter: it keeps
    the initial level unless a candidate has a smaller objective, leaves the
    other parameters alone, and reports the [success] it is told to. *)
Definition levels : list float := [0.125; 0.25; 0.375].

Definition objective_at (func : objective) (rest : list float) (c : float)
  : float :=
  match func (c :: rest) with
  | Ok v => v
  | Raise _ => infinity
  end.

Definition level_search (converged : bool) (func : objective)
           (x0 : list float) : OptimizeResult :=
  let rest := tl x0 in
  let best :=
    fold_left (fun cur c =>
                 if objective_at func rest c <? objective_at func rest cur
                 then c else cur)
              levels (nth 0 x0 0) in
  {| x := best :: rest; success := converged |}.

Definition market_of (cg_converges : bool)
           (delta : float -> float -> float) : Externals := {|
  Date := float;
  date_sub := PrimFloat.sub;
  gDaysInYear := 365;
  DiscountCurve := unit;
  curve_df := fun _ _ => 1;
  np_exp := fun _ => 1;
  np_log := fun _ => 0;
  vol_type_value := vol_value;
  option_type_value := opt_value;
  vol_function_clark := flat_smile;
  vol_Function_bloomberg := flat_smile;
  vol_function_svi := flat_smile;
  vol_function_ssvi := flat_smile;
  vol_function_sabr := flat_smile;
  vol_function_sabr_BETA_ONE := flat_smile;
  vol_function_sabr_BETA_HALF := flat_smile;
  bs_delta := fun s t k r q v ty => delta s k;
  norminvcdf := fun p => p - 0.5;
  nelder_mead := fun _ _ _ _ _ => Raise (External 1);
  minimize := fun func x0 method _ =>
                if String.eqb method "CG"
                then Ok (level_search cg_converges func x0)
                else Raise (External 2);
  secant_start := fun x0 => x0 + 1
|}.

(** The delta of a call that falls from 1 to 0 as the strike grows. *)
Definition falling_delta (s k : float) : float := s / (s + k).

Definition market_with (cg_converges : bool) : Externals :=
  market_of cg_converges falling_delta.

Definition market : Externals := market_with true.

(** A market whose delta ignores the strike: no strike has the delta 0.25. *)
Definition market_flat_delta : Externals := market_of true (fun _ _ => 0.5).

(** The strike search for the delta 0.25 at one year, from the spot 100. *)
Definition solve_quarter_delta (E : Externals) : M float :=
  @_solveForSmileStrike E 100 1 0 0 1 0 0.25 100 [0.25; 0; 0].

(** Five strikes, and a market whose smiles are flat at 12.5%, 25% and 37.5%
    on the first, second and third expiry. *)
Definition strikes_5 : list float := [80; 90; 100; 110; 120].

Definition grid_3 : list (list float) :=
  [repeat 0.125 5; repeat 0.25 5; repeat 0.375 5].

(** What the constructor does on three expiries [dates] (day numbers, the
    valuation date being day 0), spot 100, with the solver [solver]. *)
Definition build (E : Externals) (dates : list (@Date E))
           (valuation_date : @Date E) (curve : @DiscountCurve E)
           (solver : FinSolverTypes) : M (@EquityVolSurface E) :=
  @__init__ E valuation_date 100 curve curve dates strikes_5 grid_3 CLARK
            solver.

(** The object [__init__] hands to [_buildVolSurface] there. *)
Definition blank (dates : list float) : @EquityVolSurface market :=
  {| _valuation_date := 0 : @Date market;
     _stock_price := 100;
     _discount_curve := tt : @DiscountCurve market;
     _dividend_curve := tt : @DiscountCurve market;
     _strikes := strikes_5;
     _numStrikes := 5;
     _expiry_dates := dates : list (@Date market);
     _numExpiryDates := length dates;
     _volatility_grid := grid_3;
     _volatility_function_type := CLARK;
     _parameters := [];
     _texp := [];
     _F0T := [];
     _r := [];
     _q := [] |}.

(** The surface the constructor returns with conjugate gradient, and the
    blank object when it raises. *)
Definition built (dates : list float) : @EquityVolSurface market :=
  match snd (build market dates 0 tt CONJUGATE_GRADIENT) with
  | Ok self => self
  | Raise _ => blank dates
  end.

(** Expiries at one, two and four years. *)
Definition dates_124 : list float := [365; 730; 1460].

(** Three months, three years and four years. *)
Definition dates_3 : list float := [91; 1095; 1460].

(** Two expiries 21 seconds apart ([2^-12] of a day), and a later one. *)
Definition dates_close : list float := [100; 100.000244140625; 200].

(** The objective of the first expiry of [dates_3]. *)
Definition objective_0 (E : Externals) : objective :=
  @_obj E {| oa_s := 100; oa_t := 91 / 365; oa_r := 0; oa_q := 0;
             oa_strikes := strikes_5; oa_index := 0;
             oa_volatility_grid := grid_3;
             oa_volTypeValue := 0 |}.

(** That calibration, asked to use SciPy's simplex search. *)
Definition calibrate_0 (E : Externals) : M (list float) :=
  @_solveToHorizon E 100 (91 / 365) 0 0 strikes_5 0 grid_3 0 [0; 0; 0]
                   NELDER_MEAD.

End Demo.

(* ================================================================== *)
(** ** More concrete inputs                                            *)
(* ================================================================== *)

Module DemoMore.

Local Open Scope float_scope.

(** The market of [Demo.market] with optimizers that all raise. *)
Definition market_silent : Externals := {|
  Date := float;
  date_sub := PrimFloat.sub;
  gDaysInYear := 365;
  DiscountCurve := unit;
  curve_df := fun _ _ => 1;
  np_exp := fun _ => 1;
  np_log := fun _ => 0;
  vol_type_value := Demo.vol_value;
  option_type_value := Demo.opt_value;
  vol_function_clark := Demo.flat_smile;
  vol_Function_bloomberg := Demo.flat_smile;
  vol_function_svi := Demo.flat_smile;
  vol_function_ssvi := Demo.flat_smile;
  vol_function_sabr := Demo.flat_smile;
  vol_function_sabr_BETA_ONE := Demo.flat_smile;
  vol_function_sabr_BETA_HALF := Demo.flat_smile;
  bs_delta := fun s t k r q v ty => Demo.falling_delta s k;
  norminvcdf := fun p => p - 0.5;
  nelder_mead := fun _ _ _ _ _ => Raise (External 1);
  minimize := fun _ _ _ _ => Raise (External 2);
  secant_start := fun x0 => x0 + 1
|}.

(** The calibration of the first expiry of [Demo.dates_3] by conjugate
    gradient. *)
Definition calibrate_cg (E : Externals) : M (list float) :=
  @_solveToHorizon E 100 (91 / 365) 0 0 Demo.strikes_5 0 Demo.grid_3 0
                   [0; 0; 0] CONJUGATE_GRADIENT.

(** The arguments of the objective of the first expiry of
    [Demo.dates_3]. *)
Definition args_0 : obj_args :=
  {| oa_s := 100; oa_t := 91 / 365; oa_r := 0; oa_q := 0;
     oa_strikes := Demo.strikes_5; oa_index := 0;
     oa_volatility_grid := Demo.grid_3;
     oa_volTypeValue := 0 |}.

(** The constructor on one expiry at one year, on the market [E]. *)
Definition build_single (E : Externals) (date valuation_date : @Date E)
           (curve : @DiscountCurve E) : M (@EquityVolSurface E) :=
  @__init__ E valuation_date 100 curve curve [date] Demo.strikes_5
            [repeat 0.25 5] CLARK CONJUGATE_GRADIENT.

(** The object [__init__] starts from, on any market. *)
Definition blank_in (E : Externals) (valuation_date : @Date E)
           (curve : @DiscountCurve E) (dates : list (@Date E))
           (grid : list (list float)) : @EquityVolSurface E :=
  {| _valuation_date := valuation_date;
     _stock_price := 100;
     _discount_curve := curve;
     _dividend_curve := curve;
     _strikes := Demo.strikes_5;
     _numStrikes := 5;
     _expiry_dates := dates;
     _numExpiryDates := length dates;
     _volatility_grid := grid;
     _volatility_function_type := CLARK;
     _parameters := [];
     _texp := [];
     _F0T := [];
     _r := [];
     _q := [] |}.

(** The surface a constructor call returned, and the blank object when it
    raised. *)
Definition surface_of (E : Externals) (run : M (@EquityVolSurface E))
           (otherwise : @EquityVolSurface E) : @EquityVolSurface E :=
  match snd run with
  | Ok self => self
  | Raise _ => otherwise
  end.

(** The surface with the single tenor of one year. *)
Definition built_single : @EquityVolSurface Demo.market :=
  surface_of Demo.market (build_single Demo.market 365 0 tt)
             (blank_in Demo.market 0 tt [365] [repeat 0.25 5]).

(** The surface on one, two and four years of the market whose delta
    ignores the strike. *)
Definition built_flat_delta : @EquityVolSurface Demo.market_flat_delta :=
  surface_of Demo.market_flat_delta
             (Demo.build Demo.market_flat_delta Demo.dates_124 0 tt
                         CONJUGATE_GRADIENT)
             (blank_in Demo.market_flat_delta 0 tt Demo.dates_124
                       Demo.grid_3).

End DemoMore.

(* ================================================================== *)
(** ** Facts about binary64 comparison, subtraction and absolute value *)
(* ================================================================== *)

Module FloatFacts.

Local Open Scope float_scope.

Lemma SFcompare_antisym (a b : spec_float) :
  SFcompare b a = option_map CompOpp (SFcompare a b).
Proof.
  destruct a as [sa|sa| |sa ma ea], b as [sb|sb| |sb mb eb]; simpl;
    try reflexivity;
    try (destruct sa; reflexivity); try (destruct sb; reflexivity);
    try (destruct sa, sb; reflexivity).
  change (PosDef.Pos.compare_cont Eq) with Pos.compare.
  rewrite (Z.compare_antisym ea eb), (Pos.compare_antisym ma mb).
  destruct sa, sb, (ea ?= eb)%Z, (ma ?= mb)%positive; reflexivity.
Qed.

(** The comparison of two numbers, neither a NaN, is a lexicographic one:
    chaining [<] with [<] or [=] gives [<]. *)
Ltac sf_chain :=
  intros a b c;
  destruct a as [sa|sa| |sa ma ea], b as [sb|sb| |sb mb eb],
           c as [sc|sc| |sc mc ec];
  simpl; try discriminate; try congruence;
  repeat match goal with s : bool |- _ => destruct s end; simpl;
  try discriminate; try congruence;
  change (PosDef.Pos.compare_cont Eq) with Pos.compare;
  destruct (Z.compare_spec ea eb), (Z.compare_spec eb ec),
           (Z.compare_spec ea ec);
  try lia; try discriminate; try congruence; subst;
  destruct (Pos.compare_spec ma mb), (Pos.compare_spec mb mc),
           (Pos.compare_spec ma mc);
  simpl; try lia; try discriminate; try congruence.

Lemma SFcompare_lt_lt : forall a b c : spec_float,
  SFcompare a b = Some Lt -> SFcompare b c = Some Lt ->
  SFcompare a c = Some Lt.
Proof. sf_chain. Qed.

Lemma SFcompare_eq_lt : forall a b c : spec_float,
  SFcompare a b = Some Eq -> SFcompare b c = Some Lt ->
  SFcompare a c = Some Lt.
Proof. sf_chain. Qed.

Lemma SFcompare_lt_eq : forall a b c : spec_float,
  SFcompare a b = Some Lt -> SFcompare b c = Some Eq ->
  SFcompare a c = Some Lt.
Proof. sf_chain. Qed.

Lemma ltb_leb (a b : float) : (a <? b) = true -> (a <=? b) = true.
Proof.
  rewrite ltb_spec, leb_spec. unfold SFltb, SFleb.
  destruct (SFcompare (Prim2SF a) (Prim2SF b)) as [[]|]; congruence.
Qed.

Lemma ltb_not_leb (a b : float) : (a <? b) = true -> (b <=? a) = false.
Proof.
  rewrite ltb_spec, leb_spec. unfold SFltb, SFleb.
  rewrite (SFcompare_antisym (Prim2SF a) (Prim2SF b)).
  destruct (SFcompare (Prim2SF a) (Prim2SF b)) as [[]|]; simpl; congruence.
Qed.

Lemma leb_not_ltb (a b : float) : (a <=? b) = true -> (b <? a) = false.
Proof.
  rewrite ltb_spec, leb_spec. unfold SFltb, SFleb.
  rewrite (SFcompare_antisym (Prim2SF a) (Prim2SF b)).
  destruct (SFcompare (Prim2SF a) (Prim2SF b)) as [[]|]; simpl; congruence.
Qed.

Lemma ltb_trans (a b c : float) :
  (a <? b) = true -> (b <? c) = true -> (a <? c) = true.
Proof.
  rewrite !ltb_spec. unfold SFltb.
  destruct (SFcompare (Prim2SF a) (Prim2SF b)) as [[]|] eqn:E1;
    try discriminate.
  destruct (SFcompare (Prim2SF b) (Prim2SF c)) as [[]|] eqn:E2;
    try discriminate.
  now rewrite (SFcompare_lt_lt _ _ _ E1 E2).
Qed.

Lemma leb_ltb_trans (a b c : float) :
  (a <=? b) = true -> (b <? c) = true -> (a <? c) = true.
Proof.
  rewrite !ltb_spec, leb_spec. unfold SFltb, SFleb.
  destruct (SFcompare (Prim2SF a) (Prim2SF b)) as [[]|] eqn:E1;
    try discriminate;
    destruct (SFcompare (Prim2SF b) (Prim2SF c)) as [[]|] eqn:E2;
    try discriminate; intros _ _.
  - now rewrite (SFcompare_eq_lt _ _ _ E1 E2).
  - now rewrite (SFcompare_lt_lt _ _ _ E1 E2).
Qed.

Lemma ltb_leb_trans (a b c : float) :
  (a <? b) = true -> (b <=? c) = true -> (a <? c) = true.
Proof.
  rewrite !ltb_spec, leb_spec. unfold SFltb, SFleb.
  destruct (SFcompare (Prim2SF a) (Prim2SF b)) as [[]|] eqn:E1;
    try discriminate;
    destruct (SFcompare (Prim2SF b) (Prim2SF c)) as [[]|] eqn:E2;
    try discriminate; intros _ _.
  - now rewrite (SFcompare_lt_eq _ _ _ E1 E2).
  - now rewrite (SFcompare_lt_lt _ _ _ E1 E2).
Qed.

(** A number that is above another one is not a NaN: it compares equal to
    itself. *)
Lemma ltb_leb_refl_r (a b : float) : (a <? b) = true -> (b <=? b) = true.
Proof.
  rewrite ltb_spec, leb_spec. unfold SFltb, SFleb.
  destruct (Prim2SF a) as [sa|sa| |sa ma ea],
           (Prim2SF b) as [sb|sb| |sb mb eb]; simpl;
    try discriminate; try reflexivity; intros _;
    try (destruct sb; reflexivity).
  all: destruct sb; rewrite Z.compare_refl;
    change (PosDef.Pos.compare_cont Eq) with Pos.compare;
    rewrite Pos.compare_refl; reflexivity.
Qed.

Lemma ltb_leb_refl_l (a b : float) : (a <? b) = true -> (a <=? a) = true.
Proof.
  rewrite ltb_spec, leb_spec. unfold SFltb, SFleb.
  destruct (Prim2SF a) as [sa|sa| |sa ma ea],
           (Prim2SF b) as [sb|sb| |sb mb eb]; simpl;
    try discriminate; try reflexivity; intros _;
    try (destruct sa; reflexivity).
  all: destruct sa; rewrite Z.compare_refl;
    change (PosDef.Pos.compare_cont Eq) with Pos.compare;
    rewrite Pos.compare_refl; reflexivity.
Qed.

(** [t - t] is a zero or a NaN, and neither is above [1e-6]. *)
Lemma sub_diag_not_above (t : float) : (tol_1e_6 <? abs (t - t)) = false.
Proof.
  rewrite ltb_spec, abs_spec, sub_spec.
  destruct (Prim2SF t) as [s|s| |s m e];
    try (destruct s; reflexivity); try reflexivity.
  unfold SF64sub, SFsub. rewrite Z.sub_diag. reflexivity.
Qed.

Lemma abs_opp (a : float) : abs (- a) = abs a.
Proof.
  apply Prim2SF_inj. rewrite !abs_spec, opp_spec.
  destruct (Prim2SF a); reflexivity.
Qed.

End FloatFacts.

(* ================================================================== *)
(** ** Facts about the prelude                                         *)
(* ================================================================== *)

Lemma getitem_Ok {A} (l : list A) (i : nat) (a : A) :
  getitem l i = Ok a <-> nth_error l i = Some a.
Proof.
  unfold getitem. destruct (nth_error l i); split; congruence.
Qed.

Lemma getitem_last_Ok {A} (l : list A) (a : A) :
  getitem_last l = Ok a <-> nth_error l (length l - 1) = Some a.
Proof.
  destruct l as [|b l]; simpl.
  - split; discriminate.
  - apply getitem_Ok.
Qed.

Lemma fst_bind {A B} (m : M A) (k : A -> M B) :
  fst (bind m k) =
  fst m ++ match snd m with Ok a => fst (k a) | Raise _ => [] end.
Proof.
  destruct m as [l [a|e]]; simpl.
  - destruct (k a); reflexivity.
  - now rewrite app_nil_r.
Qed.

Lemma snd_bind {A B} (m : M A) (k : A -> M B) :
  snd (bind m k) = match snd m with Ok a => snd (k a) | Raise e => Raise e end.
Proof.
  destruct m as [l [a|e]]; simpl; [destruct (k a)|]; reflexivity.
Qed.

Lemma bind_lift {A B} (r : result A) (k : A -> M B) :
  bind (lift r) k = match r with Ok a => k a | Raise e => raise e end.
Proof.
  destruct r as [a|e]; simpl; [destruct (k a)|]; reflexivity.
Qed.

Lemma bind_ret {A B} (a : A) (k : A -> M B) : bind (ret a) k = k a.
Proof. unfold ret, bind. destruct (k a); reflexivity. Qed.

Lemma bind_ret_r {A} (m : M A) : bind m (fun a => ret a) = m.
Proof.
  destruct m as [l [a|e]]; simpl; [now rewrite app_nil_r|reflexivity].
Qed.

Lemma bind_log {B} (ev : event) (k : unit -> M B) :
  bind (log ev) k = (ev :: fst (k tt), snd (k tt)).
Proof. unfold log, bind. destruct (k tt); reflexivity. Qed.


(* ================================================================== *)
(** ** Comparison of two numbers that are not NaNs                     *)
(* ================================================================== *)

Module FloatTotal.

Local Open Scope float_scope.

(** A number that compares equal to itself is not a NaN, and two such
    numbers are comparable: when the first is not at or below the second,
    the second is strictly below the first. *)
Lemma not_leb_ltb (a b : float) :
  (a <=? a) = true -> (b <=? b) = true ->
  (a <=? b) = false -> (b <? a) = true.
Proof.
  rewrite !leb_spec, ltb_spec. unfold SFleb, SFltb.
  rewrite (FloatFacts.SFcompare_antisym (Prim2SF a) (Prim2SF b)).
  destruct (Prim2SF a) as [sa|sa| |sa ma ea],
           (Prim2SF b) as [sb|sb| |sb mb eb];
    try (simpl; discriminate);
    intros _ _;
    destruct (SFcompare _ _) as [[]|] eqn:E; simpl;
    try discriminate; try reflexivity;
    simpl in E; discriminate.
Qed.

(** Nothing is strictly below itself. *)
Lemma ltb_irrefl (a : float) : (a <? a) = false.
Proof.
  destruct (a <? a) eqn:E; [|reflexivity].
  pose proof (FloatFacts.ltb_not_leb _ _ E) as H1.
  pose proof (FloatFacts.ltb_leb _ _ E) as H2. congruence.
Qed.

End FloatTotal.
(* ================================================================== *)
(** ** The per-expiry calibrator                                       *)
(* ================================================================== *)

Section Calibrator.

Context {X : Externals}.

Local Open Scope float_scope.

(** X2.  When the primary optimizer returns, its vector is the result and
    no other optimizer is called: whether it converged is not looked at. *)
Lemma _solveToHorizon_primary_returns :
  forall s t r q strikes timeIndex grid vtv xinits solver v,
    primary_outcome solver
      (_obj (horizon_args s t r q strikes timeIndex grid vtv)) xinits = Ok v ->
    _solveToHorizon s t r q strikes timeIndex grid vtv xinits solver =
    ([EvCalibrate timeIndex xinits solver; primary_event solver xinits], Ok v).
Proof.
  intros s t r q strikes timeIndex grid vtv xinits solver v H.
  unfold _solveToHorizon, primary_outcome, horizon_args in *.
  destruct solver; simpl in *;
    unfold call_minimize, call_nelder_mead; simpl;
    match goal with
    | H : match ?c with _ => _ end = _ |- _ => destruct c eqn:E; simpl
    | H : ?c = Ok _ |- _ => rewrite H; simpl
    end; congruence.
Qed.

(** X3.  Conjugate gradient as the primary optimizer: when it raises,
    nothing is retried and the unbound local surfaces. *)
Lemma _solveToHorizon_cg_raises :
  forall s t r q strikes timeIndex grid vtv xinits e,
    primary_outcome CONJUGATE_GRADIENT
      (_obj (horizon_args s t r q strikes timeIndex grid vtv)) xinits
    = Raise e ->
    _solveToHorizon s t r q strikes timeIndex grid vtv xinits
                    CONJUGATE_GRADIENT =
    ([EvCalibrate timeIndex xinits CONJUGATE_GRADIENT;
      EvMinimize "CG" xinits tol_1e_6],
     Raise (UnboundLocalError "xopt")).
Proof.
  intros s t r q strikes timeIndex grid vtv xinits e H.
  unfold _solveToHorizon, primary_outcome, horizon_args in *. simpl in *.
  unfold call_minimize. simpl.
  destruct (minimize _ xinits "CG" tol_1e_6); simpl; congruence.
Qed.

(** C1, as the code has it.  When the primary optimizer raises and it was
    not conjugate gradient, exactly one more optimizer call is made, to
    conjugate gradient, from the same initial guess and with the same
    tolerance 1e-6; the calibration returns the vector that call returns,
    whatever its [success] flag, and raises what that call raises. *)
Theorem C1_retry_once_with_CG :
  forall s t r q strikes timeIndex grid vtv xinits solver e,
    solver <> CONJUGATE_GRADIENT ->
    primary_outcome solver
      (_obj (horizon_args s t r q strikes timeIndex grid vtv)) xinits
    = Raise e ->
    let run :=
      _solveToHorizon s t r q strikes timeIndex grid vtv xinits solver in
    fst run =
      [EvCalibrate timeIndex xinits solver; primary_event solver xinits;
       EvPrint "Failed to converge, will try CG";
       EvMinimize "CG" xinits tol_1e_6] /\
    length (filter is_optimizer_call (fst run)) = 2%nat /\
    snd run =
      match minimize (_obj (horizon_args s t r q strikes timeIndex grid vtv))
                     xinits "CG" tol_1e_6 with
      | Ok opt => Ok (x opt)
      | Raise e' => Raise e'
      end.
Proof.
  intros s t r q strikes timeIndex grid vtv xinits solver e Hcg H run.
  subst run.
  unfold _solveToHorizon, primary_outcome, horizon_args in *.
  destruct solver; try congruence; simpl in *;
    unfold call_minimize, call_nelder_mead; simpl.
  - destruct (minimize _ xinits "Nelder-Mead" tol_1e_6) eqn:E1;
      try discriminate; simpl.
    destruct (minimize _ xinits "CG" tol_1e_6) eqn:E2; simpl; auto.
  - rewrite H; simpl.
    destruct (minimize _ xinits "CG" tol_1e_6) eqn:E2; simpl; auto.
Qed.

End Calibrator.

(* ================================================================== *)
(** ** The delta-implied-strike solver                                 *)
(* ================================================================== *)

Section Solver.

Context {X : Externals}.

Local Open Scope float_scope.

(** [volFunction] on the value of a family never raises. *)
Lemma volFunction_known :
  forall ty params f k t,
    exists v, volFunction (vol_type_value ty) params f k t = Ok v.
Proof.
  intros ty params f k t. unfold volFunction.
  repeat match goal with
         | |- context [if ?c then _ else _] =>
             destruct c eqn:?; [eexists; reflexivity|]
         end.
  destruct ty;
    repeat match goal with
           | H : (?a =? ?a)%Z = false |- _ =>
               rewrite Z.eqb_refl in H; discriminate
           end.
Qed.

(** [volFunction] returns only on the value of a family, and raises only on
    an integer that is the value of none. *)
Lemma volFunction_Ok_family :
  forall vtv params f k t v,
    volFunction vtv params f k t = Ok v ->
    exists ty, vtv = vol_type_value ty.
Proof.
  intros vtv params f k t v. unfold volFunction.
  repeat match goal with
         | |- context [(vtv =? vol_type_value ?ty)%Z] =>
             destruct (Z.eqb_spec vtv (vol_type_value ty));
             [intros _; now exists ty|]
         end.
  discriminate.
Qed.

Lemma volFunction_Raise_no_family :
  forall vtv params f k t e,
    volFunction vtv params f k t = Raise e ->
    forall ty, vtv <> vol_type_value ty.
Proof.
  intros vtv params f k t e H ty ->.
  destruct (volFunction_known ty params f k t) as [v Hv].
  rewrite Hv in H. discriminate.
Qed.

(** The same for the objective of the strike search, which raises only
    through [volFunction]. *)
Lemma _deltaFit_Ok_family :
  forall a k v,
    _deltaFit a k = Ok v -> exists ty, da_volTypeValue a = vol_type_value ty.
Proof.
  intros a k v. unfold _deltaFit.
  destruct (volFunction (da_volTypeValue a) (da_params a) _ k (da_t a))
    as [v'|e] eqn:E; cbn [rbind]; [|discriminate].
  intros _. eapply volFunction_Ok_family; exact E.
Qed.

Lemma _deltaFit_Raise_no_family :
  forall a k e,
    _deltaFit a k = Raise e ->
    forall ty, da_volTypeValue a <> vol_type_value ty.
Proof.
  intros a k e. unfold _deltaFit.
  destruct (volFunction (da_volTypeValue a) (da_params a) _ k (da_t a))
    as [v'|e'] eqn:E; cbn [rbind]; [discriminate|].
  intros _. eapply volFunction_Raise_no_family; exact E.
Qed.

(** Whether [volFunction] raises depends on the discriminant alone. *)
Lemma volFunction_raises_uniformly :
  forall vtv params f k t e,
    volFunction vtv params f k t = Raise e ->
    e = FinError "Unknown Model Type" /\
    forall params' f' k' t', volFunction vtv params' f' k' t' = Raise e.
Proof.
  intros vtv params f k t e. unfold volFunction.
  repeat match goal with
         | |- context [if ?c then _ else _] => destruct c
         end; try discriminate.
  intros H; inversion H; subst. split; [reflexivity|reflexivity].
Qed.

Lemma _deltaFit_raises_uniformly :
  forall a k e,
    _deltaFit a k = Raise e ->
    e = FinError "Unknown Model Type" /\ forall k', _deltaFit a k' = Raise e.
Proof.
  intros a k e. unfold _deltaFit.
  destruct (volFunction (da_volTypeValue a) (da_params a) _ k (da_t a))
    as [v|e'] eqn:E; simpl; try discriminate.
  intros H; inversion H; subst.
  destruct (volFunction_raises_uniformly _ _ _ _ _ _ E) as [-> Hall].
  split; [reflexivity|]. intros k'. now rewrite Hall.
Qed.

(** The loop on an objective that never raises: every event is an iteration,
    there are at most [budget] of them, a returned strike is the iterate of
    the last one and that one converged, and the budget is spent without
    convergence exactly when [StrikeSolveFailed] is raised. *)
Lemma secant_loop_total :
  forall (func : float -> result float) tol,
    (forall p, exists qv, func p = Ok qv) ->
    forall budget p0 q0 p1 q1,
      let run := secant_loop func tol budget p0 q0 p1 q1 in
      forallb is_secant_iter (fst run) = true /\
      (length (fst run) <= budget)%nat /\
      match snd run with
      | Ok K =>
          exists earlier p_prev,
            fst run = earlier ++ [EvSecantIter p_prev K] /\
            (abs (K - p_prev) <? tol) = true /\
            none_converged tol earlier = true
      | Raise e =>
          e = StrikeSolveFailed /\ length (fst run) = budget /\
          none_converged tol (fst run) = true
      end.
Proof.
  intros func tol Htot budget.
  induction budget as [|b IH]; intros p0 q0 p1 q1; cbn [secant_loop].
  - simpl. repeat split; auto.
  - cbv zeta. rewrite bind_log.
    set (p := p1 - q1 * (p1 - p0) / (q1 - q0)).
    destruct (abs (p - p1) <? tol) eqn:Etest.
    + simpl. repeat split; auto with arith.
      exists [], p1. repeat split; auto.
    + rewrite bind_lift. destruct (Htot p) as [qv ->].
      specialize (IH p1 q1 p qv). cbv zeta in IH.
      destruct (secant_loop func tol b p1 q1 p qv) as [l [K|e]]; simpl in *.
      * destruct IH as (Hall & Hlen & earlier & pp & -> & Hc & Hn).
        repeat split; auto with arith.
        exists (EvSecantIter p1 p :: earlier), pp.
        repeat split; auto. simpl. now rewrite Etest.
      * destruct IH as (Hall & Hlen & -> & Hl & Hn).
        repeat split; auto with arith. now rewrite Etest.
Qed.

Lemma filter_all {A} (f : A -> bool) (l : list A) :
  forallb f l = true -> filter f l = l.
Proof.
  induction l as [|a l IH]; simpl; auto.
  intros H. apply andb_true_iff in H as [-> H]. now rewrite IH.
Qed.

(** C2.  The strike search runs at most 50 iterations against the tolerance
    1e-8.  A strike it returns is the iterate of its last iteration, which
    ended within the tolerance.  On the value of a smile family the search
    always iterates: when no iteration ends within the tolerance the caller
    gets [StrikeSolveFailed], after exactly 50 iterations, never a strike;
    when one does, the caller gets a strike.  The only other error is the
    unknown smile family, raised before any iteration, and it is raised
    exactly when the discriminant is the value of no family. *)
Theorem C2_strike_solve_budget :
  forall s t r q otv vtv target guess params,
    let run := _solveForSmileStrike s t r q otv vtv target guess params in
    let iters := filter is_secant_iter (fst run) in
    (length iters <= 50)%nat /\
    match snd run with
    | Ok K =>
        (exists ty, vtv = vol_type_value ty) /\
        exists earlier p_prev,
          iters = earlier ++ [EvSecantIter p_prev K] /\
          (abs (K - p_prev) <? tol_1e_8) = true /\
          none_converged tol_1e_8 earlier = true
    | Raise e =>
        none_converged tol_1e_8 iters = true /\
        ((e = StrikeSolveFailed /\ length iters = 50%nat /\
          exists ty, vtv = vol_type_value ty) \/
         (e = FinError "Unknown Model Type" /\ iters = [] /\
          forall ty, vtv <> vol_type_value ty))
    end /\
    (length iters = 50%nat -> none_converged tol_1e_8 iters = true ->
     snd run = Raise StrikeSolveFailed) /\
    ((exists ty, vtv = vol_type_value ty) ->
     (none_converged tol_1e_8 iters = true ->
      snd run = Raise StrikeSolveFailed /\ length iters = 50%nat) /\
     (none_converged tol_1e_8 iters = false ->
      exists K, snd run = Ok K)) /\
    ((forall ty, vtv <> vol_type_value ty) ->
     snd run = Raise (FinError "Unknown Model Type") /\ iters = []).
Proof.
  intros s t r q otv vtv target guess params run iters.
  subst iters run. unfold _solveForSmileStrike.
  rewrite bind_log. cbn [fst snd]. cbn [filter is_secant_iter].
  set (a := {| da_volTypeValue := vtv; da_s := s; da_t := t; da_r := r;
               da_q := q; da_option_type_value := otv;
               da_inverseDeltaTarget := norminvcdf (abs target);
               da_params := params |}).
  unfold newton_secant. rewrite bind_lift.
  destruct (_deltaFit a guess) as [q0|e] eqn:E0.
  - assert (Hfam : exists ty, vtv = vol_type_value ty)
      by (eapply (@_deltaFit_Ok_family a); exact E0).
    assert (Htot : forall p, exists qv, _deltaFit a p = Ok qv).
    { intros p. destruct (_deltaFit a p) as [qv|e] eqn:Ep; eauto.
      destruct (_deltaFit_raises_uniformly _ _ _ Ep) as [_ Hall].
      rewrite Hall in E0. discriminate. }
    assert (Hnot : (forall ty, vtv <> vol_type_value ty) -> False)
      by (intros Hno; destruct Hfam as [ty Hty]; exact (Hno ty Hty)).
    rewrite bind_lift. destruct (Htot (secant_start guess)) as [q1 ->].
    pose proof (secant_loop_total (_deltaFit a) tol_1e_8 Htot 50
                  guess q0 (secant_start guess) q1) as Hloop.
    cbv zeta in Hloop.
    destruct (secant_loop (_deltaFit a) tol_1e_8 50 guess q0
                          (secant_start guess) q1) as [l [K|e]] eqn:El.
    + cbn [fst snd] in *.
      destruct Hloop as (Hall & Hlen & ea & pp & -> & Hc & Hn).
      rewrite bind_ret_r. cbn [fst snd].
      rewrite (filter_all _ _ Hall).
      assert (Hlast : none_converged tol_1e_8 (ea ++ [EvSecantIter pp K])
                      = false).
      { unfold none_converged. rewrite forallb_app.
        cbn [forallb iter_converged]. rewrite Hc.
        cbn [negb andb]. apply andb_false_r. }
      split; [exact Hlen|]. split; [|split; [|split]].
      * split; [exact Hfam|]. exists ea, pp. auto.
      * intros _ Hnone. rewrite Hlast in Hnone. discriminate.
      * intros _. split.
        -- intros Hnone. rewrite Hlast in Hnone. discriminate.
        -- intros _. now exists K.
      * intros Hno. exfalso. exact (Hnot Hno).
    + cbn [fst snd] in *. destruct Hloop as (Hall & Hlen & -> & Hl & Hn).
      rewrite bind_ret_r. cbn [fst snd]. rewrite (filter_all _ _ Hall).
      split; [exact Hlen|]. split; [|split; [|split]].
      * split; [exact Hn|]. left. auto.
      * auto.
      * intros _. split; [auto|].
        intros Hnone. rewrite Hn in Hnone. discriminate.
      * intros Hno. exfalso. exact (Hnot Hno).
  - pose proof (@_deltaFit_Raise_no_family a guess _ E0) as Hno.
    change (da_volTypeValue a) with vtv in Hno.
    destruct (_deltaFit_raises_uniformly _ _ _ E0) as [-> _].
    cbn [raise bind fst snd filter length none_converged forallb].
    split; [auto with arith|]. split; [|split; [|split]].
    + split; [reflexivity|]. right. auto.
    + discriminate.
    + intros [ty Hty]. exfalso. exact (Hno ty Hty).
    + intros _. split; reflexivity.
Qed.

End Solver.

(* ================================================================== *)
(** ** The cross-expiry query engine                                   *)
(* ================================================================== *)

Section Queries.

Context {X : Externals}.

Local Open Scope float_scope.

Lemma smile_at_Ok :
  forall self K i v,
    smile_at self K i = Ok v ->
    exists fwd t params,
      getitem (_F0T self) i = Ok fwd /\
      getitem (_texp self) i = Ok t /\
      getitem (_parameters self) i = Ok params /\
      volFunction (vol_type_value (_volatility_function_type self))
                  params fwd K t = Ok v.
Proof.
  intros self K i v. unfold smile_at.
  destruct (getitem (_F0T self) i) as [fwd|]; simpl; try discriminate.
  destruct (getitem (_texp self) i) as [t|]; simpl; try discriminate.
  destruct (getitem (_parameters self) i) as [params|]; simpl;
    try discriminate.
  intros H. exists fwd, t, params. auto.
Qed.

(** A bracket whose endpoints coincide: the query is that tenor's smile. *)
Lemma strike_query_coincident :
  forall self K d i,
    bracket_strike self (year_frac d (_valuation_date self)) = Ok (i, i) ->
    volatilityFromStrikeDate self K d = smile_at self K i.
Proof.
  intros self K d i Hbr. unfold volatilityFromStrikeDate, smile_at.
  rewrite Hbr. cbn [rbind].
  destruct (getitem (_F0T self) i) as [fwd|e]; cbn [rbind]; auto.
  destruct (getitem (_texp self) i) as [t|e]; cbn [rbind]; auto.
  destruct (getitem (_parameters self) i) as [params|e]; cbn [rbind]; auto.
  destruct (volFunction _ params fwd K t) as [v|e]; cbn [rbind]; auto.
  rewrite Nat.eqb_refl. cbn [negb rbind].
  now rewrite FloatFacts.sub_diag_not_above.
Qed.

(** The query on any bracket whose reads and smiles succeed. *)
Lemma strike_query_on_bracket :
  forall self K d i0 i1 t0 t1 vol0 vol1,
    bracket_strike self (year_frac d (_valuation_date self)) = Ok (i0, i1) ->
    getitem (_texp self) i0 = Ok t0 ->
    getitem (_texp self) i1 = Ok t1 ->
    smile_at self K i0 = Ok vol0 ->
    smile_at self K i1 = Ok vol1 ->
    volatilityFromStrikeDate self K d =
    if tol_1e_6 <? abs (t1 - t0) then
      if interp (year_frac d (_valuation_date self)) t0 t1
                (vol0 * vol0 * t0) (vol1 * vol1 * t1) <? 0
      then Raise (FinError "Negative variance.")
      else Ok (sqrt (interp (year_frac d (_valuation_date self)) t0 t1
                            (vol0 * vol0 * t0) (vol1 * vol1 * t1)
                     / year_frac d (_valuation_date self)))
    else Ok vol1.
Proof.
  intros self K d i0 i1 t0 t1 vol0 vol1 Hbr Ht0 Ht1 Hs0 Hs1.
  destruct (smile_at_Ok _ _ _ _ Hs0) as (fwd0 & t0' & p0 & HF0 & Ht0' & Hp0 & Hv0).
  destruct (smile_at_Ok _ _ _ _ Hs1) as (fwd1 & t1' & p1 & HF1 & Ht1' & Hp1 & Hv1).
  assert (t0' = t0) by congruence. assert (t1' = t1) by congruence. subst.
  unfold volatilityFromStrikeDate. rewrite Hbr. cbn [rbind].
  rewrite HF0, HF1, Ht0, Ht1, Hp0. cbn [rbind]. rewrite Hv0. cbn [rbind].
  destruct (i1 =? i0)%nat eqn:Ei; cbn [negb rbind].
  - apply Nat.eqb_eq in Ei. subst i1.
    assert (vol1 = vol0) by congruence. subst. reflexivity.
  - rewrite Hp1. cbn [rbind]. rewrite Hv1. reflexivity.
Qed.

(** C4, as the code has it.  On a bracket whose two tenors are more than
    1e-6 apart the strike query returns [sqrt(var/tau)], [var] the linear
    interpolation of total variance, and fails with the negative-variance
    error exactly when [var < 0]; on a bracket whose tenors are not more
    than 1e-6 apart it returns the upper endpoint's volatility directly,
    with no interpolation and no variance check; endpoints that coincide
    are such a bracket, and the volatility is then the single one. *)
Theorem C4_variance_interpolation :
  forall self K d i0 i1 t0 t1 vol0 vol1,
    bracket_strike self (year_frac d (_valuation_date self)) = Ok (i0, i1) ->
    getitem (_texp self) i0 = Ok t0 ->
    getitem (_texp self) i1 = Ok t1 ->
    smile_at self K i0 = Ok vol0 ->
    smile_at self K i1 = Ok vol1 ->
    let tau := year_frac d (_valuation_date self) in
    let var := interp tau t0 t1 (vol0 * vol0 * t0) (vol1 * vol1 * t1) in
    ((tol_1e_6 <? abs (t1 - t0)) = true -> (var <? 0) = true ->
     volatilityFromStrikeDate self K d = Raise (FinError "Negative variance."))
    /\
    ((tol_1e_6 <? abs (t1 - t0)) = true -> (var <? 0) = false ->
     volatilityFromStrikeDate self K d = Ok (sqrt (var / tau)))
    /\
    ((tol_1e_6 <? abs (t1 - t0)) = false ->
     volatilityFromStrikeDate self K d = Ok vol1)
    /\
    (i0 = i1 -> volatilityFromStrikeDate self K d = Ok vol0).
Proof.
  intros self K d i0 i1 t0 t1 vol0 vol1 Hbr Ht0 Ht1 Hs0 Hs1 tau var.
  pose proof (strike_query_on_bracket _ K _ _ _ _ _ _ _ Hbr Ht0 Ht1 Hs0 Hs1)
    as Hq.
  fold tau in Hq. fold var in Hq.
  repeat split.
  - intros H1 H2. now rewrite Hq, H1, H2.
  - intros H1 H2. now rewrite Hq, H1, H2.
  - intros H1. now rewrite Hq, H1.
  - intros ->. rewrite (strike_query_coincident _ K _ _ Hbr). exact Hs0.
Qed.

(** C3, as the code has it.  With at least two expiries, the earliest
    strictly before the latest: the strike query takes the bracket (latest,
    latest) for every query time at or after the latest tenor, the delta
    query for every query time strictly after it. *)
Theorem C3_bracket_beyond_last :
  forall self tau t_first t_last,
    (2 <= _numExpiryDates self)%nat ->
    length (_texp self) = _numExpiryDates self ->
    getitem (_texp self) 0 = Ok t_first ->
    getitem_last (_texp self) = Ok t_last ->
    (t_first <? t_last) = true ->
    ((t_last <=? tau) = true ->
     bracket_strike self tau =
     Ok (_numExpiryDates self - 1, _numExpiryDates self - 1)%nat) /\
    ((t_last <? tau) = true ->
     bracket_delta self tau =
     Ok (_numExpiryDates self - 1, _numExpiryDates self - 1)%nat).
Proof.
  intros self tau t_first t_last Hn Hlen Hf Hl Hasc.
  assert (Hn1 : (_numExpiryDates self =? 1)%nat = false)
    by (apply Nat.eqb_neq; lia).
  split; intros Htau.
  - unfold bracket_strike. rewrite Hn1, Hf. cbn [rbind].
    rewrite (FloatFacts.ltb_not_leb _ _
               (FloatFacts.ltb_leb_trans _ _ _ Hasc Htau)).
    rewrite Hl. cbn [rbind]. now rewrite Htau, Hlen.
  - unfold bracket_delta. rewrite Hn1, Hf. cbn [rbind].
    rewrite (FloatFacts.ltb_not_leb _ _ (FloatFacts.ltb_trans _ _ _ Hasc Htau)).
    rewrite Hl. cbn [rbind]. now rewrite Htau, Hlen.
Qed.

(** C6.  The tenors being in order (the first not after the last): a
    strike query strictly below the first tenor returns the first tenor's
    smile at [K], one strictly above the last tenor the last tenor's smile
    at [K], each evaluated at the tenor's own parameters, forward and time;
    the value does not depend on the query time: any other date on the same
    side gets the same answer. *)
Theorem C6_flat_extrapolation :
  forall self K d d' t_first t_last,
    length (_texp self) = _numExpiryDates self ->
    getitem (_texp self) 0 = Ok t_first ->
    getitem_last (_texp self) = Ok t_last ->
    (t_first <=? t_last) = true ->
    ((year_frac d (_valuation_date self) <? t_first) = true ->
     volatilityFromStrikeDate self K d = smile_at self K 0 /\
     ((year_frac d' (_valuation_date self) <? t_first) = true ->
      volatilityFromStrikeDate self K d' = volatilityFromStrikeDate self K d))
    /\
    ((t_last <? year_frac d (_valuation_date self)) = true ->
     volatilityFromStrikeDate self K d =
     smile_at self K (_numExpiryDates self - 1) /\
     ((t_last <? year_frac d' (_valuation_date self)) = true ->
      volatilityFromStrikeDate self K d' = volatilityFromStrikeDate self K d)).
Proof.
  intros self K d d' t_first t_last Hlen Hf Hl Hasc.
  assert (Hbelow : forall e,
             (year_frac e (_valuation_date self) <? t_first) = true ->
             volatilityFromStrikeDate self K e = smile_at self K 0).
  { intros e Htau. apply strike_query_coincident. unfold bracket_strike.
    destruct (_numExpiryDates self =? 1)%nat; auto.
    rewrite Hf. cbn [rbind]. now rewrite (FloatFacts.ltb_leb _ _ Htau). }
  assert (Habove : forall e,
             (t_last <? year_frac e (_valuation_date self)) = true ->
             volatilityFromStrikeDate self K e =
             smile_at self K (_numExpiryDates self - 1)).
  { intros e Htau. apply strike_query_coincident. unfold bracket_strike.
    destruct (_numExpiryDates self =? 1)%nat eqn:En.
    - apply Nat.eqb_eq in En. now rewrite En.
    - rewrite Hf. cbn [rbind].
      rewrite (FloatFacts.ltb_not_leb _ _
                 (FloatFacts.leb_ltb_trans _ _ _ Hasc Htau)).
      rewrite Hl. cbn [rbind].
      now rewrite (FloatFacts.ltb_leb _ _ Htau), Hlen. }
  split; intros Htau.
  - split; [now apply Hbelow|]. intros Htau'.
    now rewrite (Hbelow d Htau), (Hbelow d' Htau').
  - split; [now apply Habove|]. intros Htau'.
    now rewrite (Habove d Htau), (Habove d' Htau').
Qed.

(** C7.  The delta-convention argument is accepted and never used: the two
    runs of the delta query agree on the result and on every solver call
    made. *)
Theorem C7_deltaMethod_ignored :
  forall (DeltaMethod1 DeltaMethod2 : Type) self callDelta d
         (m1 : option DeltaMethod1) (m2 : option DeltaMethod2),
    volatilityFromDeltaDate self callDelta d m1 =
    volatilityFromDeltaDate self callDelta d m2.
Proof. intros. reflexivity. Qed.

Lemma solve_rights_app (l1 l2 : list event) :
  solve_rights (l1 ++ l2) = solve_rights l1 ++ solve_rights l2.
Proof. unfold solve_rights. apply flat_map_app. Qed.

Lemma rights_within_nil (c : Z) (n : nat) : rights_within c n [].
Proof. split; simpl; [constructor|lia]. Qed.

Lemma rights_within_lift {A B} (c : Z) (n : nat) (r : result A)
      (k : A -> M B) :
  (forall a, r = Ok a -> rights_within c n (fst (k a))) ->
  rights_within c n (fst (bind (lift r) k)).
Proof.
  intros H. rewrite bind_lift. destruct r as [a|e]; auto.
  apply rights_within_nil.
Qed.

Lemma secant_loop_no_solve :
  forall func tol budget p0 q0 p1 q1,
    solve_rights (fst (secant_loop func tol budget p0 q0 p1 q1)) = [].
Proof.
  intros func tol budget.
  induction budget as [|b IH]; intros p0 q0 p1 q1; cbn [secant_loop].
  - reflexivity.
  - cbv zeta. rewrite bind_log. cbn [fst solve_rights flat_map app].
    destruct (abs _ <? tol); [reflexivity|].
    rewrite bind_lift. destruct (func _) as [qv|e]; [apply IH|reflexivity].
  Qed.

Lemma newton_secant_no_solve :
  forall func x0 tol maxiter,
    solve_rights (fst (newton_secant func x0 tol maxiter)) = [].
Proof.
  intros. unfold newton_secant. rewrite bind_lift.
  destruct (func x0) as [q0|e]; [|reflexivity].
  rewrite bind_lift.
  destruct (func (secant_start x0)) as [q1|e]; [|reflexivity].
  apply secant_loop_no_solve.
Qed.

Lemma solve_rights_of_solve :
  forall s t r q otv vtv target guess params,
    solve_rights
      (fst (_solveForSmileStrike s t r q otv vtv target guess params)) = [otv].
Proof.
  intros. unfold _solveForSmileStrike.
  match goal with
  | |- context [newton_secant ?f ?g ?tol ?n] =>
      pose proof (newton_secant_no_solve f g tol n) as Hns;
      set (ns := newton_secant f g tol n) in *; clearbody ns
  end.
  rewrite bind_log, bind_ret_r. cbn [fst solve_rights flat_map app].
  unfold solve_rights in Hns. now rewrite Hns.
Qed.

Lemma rights_within_solve {B} (c : Z) (n : nat) s t r q vtv target guess
      params (k : float -> M B) :
  (forall K, rights_within c n (fst (k K))) ->
  rights_within c (S n)
    (fst (bind (_solveForSmileStrike s t r q c vtv target guess params) k)).
Proof.
  intros H. rewrite fst_bind. unfold rights_within.
  rewrite solve_rights_app, solve_rights_of_solve.
  destruct (snd (_solveForSmileStrike _ _ _ _ _ _ _ _ _)) as [K|e].
  - destruct (H K) as [HF Hl]. split; simpl; [constructor; auto|lia].
  - split; simpl; [repeat constructor|lia].
Qed.

Lemma snd_bind_ext {A B} (m1 m2 : M A) (k1 k2 : A -> M B) :
  snd m1 = snd m2 ->
  (forall a, snd (k1 a) = snd (k2 a)) ->
  snd (bind m1 k1) = snd (bind m2 k2).
Proof.
  intros Hm Hk. rewrite !snd_bind, Hm.
  destruct (snd m2); auto.
Qed.

Lemma bind_assoc {A B C} (m : M A) (f : A -> M B) (g : B -> M C) :
  bind (bind m f) g = bind m (fun a => bind (f a) g).
Proof.
  destruct m as [l [a|e]]; simpl; auto.
  destruct (f a) as [l2 [b|e]]; simpl.
  - destruct (g b) as [l3 r]. now rewrite app_assoc.
  - reflexivity.
Qed.

Ltac rights_step :=
  first
    [ rewrite bind_assoc
    | rewrite bind_ret
    | apply rights_within_lift; intros ? _
    | apply rights_within_solve; intros ?
    | apply rights_within_nil
    | match goal with
      | |- context [if ?c then _ else _] => destruct c
      | |- context [let (_, _) := ?p in _] => destruct p
      | |- context [match ?o with Some _ => _ | None => _ end] => destruct o
      end ].

(** The target delta enters the search through its absolute value. *)
Lemma solve_sign_blind :
  forall s t r q otv vtv target guess params,
    snd (_solveForSmileStrike s t r q otv vtv (- target) guess params) =
    snd (_solveForSmileStrike s t r q otv vtv target guess params).
Proof.
  intros. unfold _solveForSmileStrike.
  rewrite FloatFacts.abs_opp.
  match goal with
  | |- context [newton_secant ?f ?g ?tol ?n] =>
      set (ns := newton_secant f g tol n); clearbody ns
  end.
  now rewrite !bind_log.
Qed.

Ltac sign_step :=
  first
    [ reflexivity
    | rewrite !bind_assoc
    | apply snd_bind_ext; [first [reflexivity | apply solve_sign_blind]|intros ?]
    | match goal with
      | |- context [if ?c then _ else _] => destruct c
      | |- context [let (_, _) := ?p in _] => destruct p
      end ].

(** C10.  The delta query reads its target as the delta of a European call:
    every call it makes to the strike solver, at most one per bracket
    endpoint, carries the right [EUROPEAN_CALL]; nothing in its arguments
    selects another right; and target and computed delta meet only as
    inverse-normal images of their absolute values, so that a target and its
    opposite get the same answer. *)
Theorem C10_call_delta_only :
  forall (DeltaMethod : Type) self callDelta d (dm : option DeltaMethod),
    rights_within (option_type_value EUROPEAN_CALL) 2
                  (fst (volatilityFromDeltaDate self callDelta d dm)) /\
    snd (volatilityFromDeltaDate self (- callDelta) d dm) =
    snd (volatilityFromDeltaDate self callDelta d dm) /\
    (forall s t r q otv vtv target params k,
        _deltaFit {| da_volTypeValue := vtv; da_s := s; da_t := t;
                     da_r := r; da_q := q; da_option_type_value := otv;
                     da_inverseDeltaTarget := norminvcdf (abs target);
                     da_params := params |} k =
        rbind (volFunction vtv params (s * np_exp ((r - q) * t)) k t)
              (fun v => Ok (norminvcdf (abs target) -
                            norminvcdf (abs (bs_delta s t k r q v otv))))).
Proof.
  intros DeltaMethod self callDelta d dm. split; [|split].
  - unfold volatilityFromDeltaDate. repeat rights_step.
  - unfold volatilityFromDeltaDate. repeat sign_step.
  - intros. reflexivity.
Qed.

(** Ascending tenors, pair by pair. *)
Lemma ascending_adjacent :
  forall ts j a b,
    ascending ts = true ->
    nth_error ts j = Some a -> nth_error ts (S j) = Some b ->
    (a <? b) = true.
Proof.
  induction ts as [|c ts IH]; intros j a b Hasc Ha Hb.
  - destruct j; discriminate.
  - destruct ts as [|c' ts'].
    + destruct j; discriminate.
    + cbn [ascending] in Hasc. apply andb_true_iff in Hasc as [Hcc Hrest].
      destruct j as [|j].
      * simpl in Ha, Hb. congruence.
      * apply (IH j a b Hrest); assumption.
Qed.

Lemma ascending_pairwise :
  forall ts, ascending ts = true ->
  forall k j a b,
    (j < k)%nat ->
    nth_error ts j = Some a -> nth_error ts k = Some b ->
    (a <? b) = true.
Proof.
  intros ts Hasc. induction k as [|k IH]; intros j a b Hjk Ha Hb; [lia|].
  assert (Hk : exists c, nth_error ts k = Some c).
  { destruct (nth_error ts k) as [c|] eqn:E; eauto.
    apply nth_error_None in E.
    assert (nth_error ts (S k) = None) by (apply nth_error_None; lia).
    congruence. }
  destruct Hk as [c Hc].
  pose proof (ascending_adjacent ts k c b Hasc Hc Hb) as Hcb.
  destruct (Nat.eq_dec j k) as [->|Hne].
  - congruence.
  - apply (FloatFacts.ltb_trans a c b); [|exact Hcb].
    apply (IH j a c); [lia|assumption|assumption].
Qed.

(** The scan, asked for the time of the tenor [i] itself, stops at [i]. *)
Lemma bracket_scan_at_tenor :
  forall ts i t_i,
    ascending ts = true ->
    (1 <= i)%nat ->
    nth_error ts i = Some t_i ->
    forall todo j,
      (1 <= j <= i)%nat -> (i < j + todo)%nat ->
      bracket_scan t_i ts j todo = Ok (i - 1, i)%nat.
Proof.
  intros ts i t_i Hasc Hi Hti.
  assert (Hlen : (i < length ts)%nat)
    by (apply nth_error_Some; congruence).
  induction todo as [|todo IH]; intros j Hj Hrange; [lia|].
  cbn [bracket_scan].
  destruct (nth_error ts j) as [tj|] eqn:Etj;
    [|apply nth_error_None in Etj; lia].
  rewrite (proj2 (getitem_Ok ts j tj) Etj). cbn [rbind].
  destruct (Nat.eq_dec j i) as [->|Hne].
  - assert (tj = t_i) by congruence. subst tj.
    destruct (nth_error ts (i - 1)) as [tp|] eqn:Etp;
      [|apply nth_error_None in Etp; lia].
    assert (Hlt : (tp <? t_i) = true)
      by (apply (ascending_pairwise ts Hasc i (i - 1)); auto; lia).
    rewrite (FloatFacts.ltb_leb_refl_r _ _ Hlt).
    rewrite (proj2 (getitem_Ok ts (i - 1) tp) Etp). cbn [rbind].
    now rewrite Hlt.
  - assert (Hlt : (tj <? t_i) = true)
      by (apply (ascending_pairwise ts Hasc i j); auto; lia).
    rewrite (FloatFacts.ltb_not_leb _ _ Hlt).
    apply IH; lia.
Qed.

(** The bracket the strike query takes at the time of the tenor [i]. *)
Lemma bracket_strike_at_tenor :
  forall self i t_i,
    length (_texp self) = _numExpiryDates self ->
    ascending (_texp self) = true ->
    nth_error (_texp self) i = Some t_i ->
    bracket_strike self t_i =
    if ((i =? 0) || (i =? _numExpiryDates self - 1))%nat
    then Ok (i, i) else Ok (i - 1, i)%nat.
Proof.
  intros self i t_i Hlen Hasc Hti.
  assert (Hi : (i < _numExpiryDates self)%nat)
    by (rewrite <- Hlen; apply nth_error_Some; congruence).
  unfold bracket_strike.
  destruct (_numExpiryDates self =? 1)%nat eqn:En.
  - apply Nat.eqb_eq in En. replace i with 0%nat by lia. reflexivity.
  - apply Nat.eqb_neq in En.
    destruct (nth_error (_texp self) 0) as [t0|] eqn:Et0;
      [|apply nth_error_None in Et0; lia].
    destruct (nth_error (_texp self) 1) as [t1|] eqn:Et1;
      [|apply nth_error_None in Et1; lia].
    destruct (nth_error (_texp self) (length (_texp self) - 1))
      as [tl|] eqn:Etl; [|apply nth_error_None in Etl; lia].
    rewrite (proj2 (getitem_Ok _ _ _) Et0). cbn [rbind].
    rewrite (proj2 (getitem_last_Ok _ _) Etl).
    destruct (Nat.eq_dec i 0) as [->|Hi0].
    + assert (t_i = t0) by congruence. subst.
      assert (Hlt : (t0 <? t1) = true)
        by (apply (ascending_adjacent _ 0 _ _ Hasc Et0 Et1)).
      now rewrite (FloatFacts.ltb_leb_refl_l _ _ Hlt).
    + assert (Hlt0 : (t0 <? t_i) = true)
        by (apply (ascending_pairwise _ Hasc i 0); auto; lia).
      rewrite (FloatFacts.ltb_not_leb _ _ Hlt0). cbn [rbind].
      replace (i =? 0)%nat with false by (symmetry; apply Nat.eqb_neq; lia).
      cbn [orb].
      destruct (Nat.eq_dec i (_numExpiryDates self - 1)) as [Hil|Hil].
      * rewrite <- Hil, Nat.eqb_refl.
        assert (tl = t_i) by (rewrite Hlen, <- Hil in Etl; congruence).
        subst tl.
        rewrite (FloatFacts.ltb_leb_refl_r _ _ Hlt0).
        now rewrite Hlen, <- Hil.
      * replace (i =? _numExpiryDates self - 1)%nat with false
          by (symmetry; apply Nat.eqb_neq; lia).
        assert (Hltl : (t_i <? tl) = true)
          by (apply (ascending_pairwise _ Hasc (length (_texp self) - 1) i);
              auto; lia).
        rewrite (FloatFacts.ltb_not_leb _ _ Hltl).
        apply (bracket_scan_at_tenor _ i t_i Hasc); auto; lia.
Qed.

(** X11.  The delta query at the time of the tenor [i]: its third test is
    strict, so that the last tenor too is reached through the scan. *)
Lemma bracket_delta_at_tenor :
  forall self i t_i,
    length (_texp self) = _numExpiryDates self ->
    ascending (_texp self) = true ->
    nth_error (_texp self) i = Some t_i ->
    bracket_delta self t_i =
    if (i =? 0)%nat then Ok (0, 0)%nat else Ok (i - 1, i)%nat.
Proof.
  intros self i t_i Hlen Hasc Hti.
  assert (Hi : (i < _numExpiryDates self)%nat)
    by (rewrite <- Hlen; apply nth_error_Some; congruence).
  unfold bracket_delta.
  destruct (_numExpiryDates self =? 1)%nat eqn:En.
  - apply Nat.eqb_eq in En. replace i with 0%nat by lia. reflexivity.
  - apply Nat.eqb_neq in En.
    destruct (nth_error (_texp self) 0) as [t0|] eqn:Et0;
      [|apply nth_error_None in Et0; lia].
    destruct (nth_error (_texp self) 1) as [t1|] eqn:Et1;
      [|apply nth_error_None in Et1; lia].
    destruct (nth_error (_texp self) (length (_texp self) - 1))
      as [tl|] eqn:Etl; [|apply nth_error_None in Etl; lia].
    rewrite (proj2 (getitem_Ok _ _ _) Et0). cbn [rbind].
    rewrite (proj2 (getitem_last_Ok _ _) Etl).
    destruct (Nat.eq_dec i 0) as [->|Hi0].
    + assert (t_i = t0) by congruence. subst.
      assert (Hlt : (t0 <? t1) = true)
        by (apply (ascending_adjacent _ 0 _ _ Hasc Et0 Et1)).
      now rewrite (FloatFacts.ltb_leb_refl_l _ _ Hlt).
    + assert (Hlt0 : (t0 <? t_i) = true)
        by (apply (ascending_pairwise _ Hasc i 0); auto; lia).
      rewrite (FloatFacts.ltb_not_leb _ _ Hlt0). cbn [rbind].
      replace (i =? 0)%nat with false by (symmetry; apply Nat.eqb_neq; lia).
      assert (Hle : (t_i <=? tl) = true).
      { destruct (Nat.eq_dec i (length (_texp self) - 1)) as [Hil|Hil].
        - assert (tl = t_i) by (rewrite <- Hil in Etl; congruence). subst tl.
          apply (FloatFacts.ltb_leb_refl_r _ _ Hlt0).
        - apply FloatFacts.ltb_leb.
          apply (ascending_pairwise _ Hasc (length (_texp self) - 1) i);
            auto; lia. }
      rewrite (FloatFacts.leb_not_ltb _ _ Hle).
      apply (bracket_scan_at_tenor _ i t_i Hasc); auto; lia.
Qed.

(** C5, as the code has it.  On strictly ascending tenors, a strike query
    at the expiry date of the tenor [i]: at the first and at the last tenor
    the bracket is [(i, i)] and the answer is that tenor's own smile at [K];
    at a tenor in between the bracket is [(i-1, i)] and the answer is the
    variance interpolation evaluated at the upper end, [sqrt(var(t_i)/t_i)]
    when the two tenors are more than 1e-6 apart, which need not be the
    float the smile gives. *)
Theorem C5_query_at_tenor :
  forall self K i d t_i,
    length (_texp self) = _numExpiryDates self ->
    ascending (_texp self) = true ->
    nth_error (_expiry_dates self) i = Some d ->
    nth_error (_texp self) i = Some t_i ->
    year_frac d (_valuation_date self) = t_i ->
    (i = 0%nat \/ i = (_numExpiryDates self - 1)%nat ->
     bracket_strike self t_i = Ok (i, i) /\
     volatilityFromStrikeDate self K d = smile_at self K i) /\
    (i <> 0%nat -> i <> (_numExpiryDates self - 1)%nat ->
     bracket_strike self t_i = Ok (i - 1, i)%nat /\
     forall t0 vol0 vol1,
       getitem (_texp self) (i - 1) = Ok t0 ->
       smile_at self K (i - 1) = Ok vol0 ->
       smile_at self K i = Ok vol1 ->
       volatilityFromStrikeDate self K d =
       if tol_1e_6 <? abs (t_i - t0) then
         if interp t_i t0 t_i (vol0 * vol0 * t0) (vol1 * vol1 * t_i) <? 0
         then Raise (FinError "Negative variance.")
         else Ok (sqrt (interp t_i t0 t_i (vol0 * vol0 * t0)
                               (vol1 * vol1 * t_i) / t_i))
       else Ok vol1).
Proof.
  intros self K i d t_i Hlen Hasc Hd Hti Hyear.
  pose proof (bracket_strike_at_tenor self i t_i Hlen Hasc Hti) as Hbr.
  split.
  - intros Hends.
    assert (Hb : ((i =? 0) || (i =? _numExpiryDates self - 1))%nat = true).
    { apply orb_true_iff. destruct Hends as [->| ->];
        [left|right]; apply Nat.eqb_refl. }
    rewrite Hb in Hbr. split; [exact Hbr|].
    apply strike_query_coincident. now rewrite Hyear.
  - intros H0 Hl.
    assert (Hb : ((i =? 0) || (i =? _numExpiryDates self - 1))%nat = false).
    { apply orb_false_iff. split; apply Nat.eqb_neq; assumption. }
    rewrite Hb in Hbr. split; [exact Hbr|].
    intros t0 vol0 vol1 Ht0 Hs0 Hs1.
    rewrite <- Hyear in Hbr.
    rewrite (strike_query_on_bracket self K d (i - 1) i t0 t_i vol0 vol1
               Hbr Ht0 (proj2 (getitem_Ok _ _ _) Hti) Hs0 Hs1).
    now rewrite Hyear.
Qed.

End Queries.

(* ================================================================== *)
(** ** Construction                                                    *)
(* ================================================================== *)

Section Construction.

Context {X : Externals}.

Local Open Scope float_scope.

Lemma setitem_Ok {A} (l : list A) (i : nat) (v : A) (l' : list A) :
  setitem l i v = Ok l' ->
  length l' = length l /\
  nth_error l' i = Some v /\
  forall j, j <> i -> nth_error l' j = nth_error l j.
Proof.
  revert i l'. induction l as [|a l IH]; intros i l' H.
  - destruct i; discriminate.
  - destruct i as [|i]; simpl in H.
    + inversion H; subst. repeat split; auto.
      intros [|j] Hj; [congruence|reflexivity].
    + destruct (setitem l i v) as [tl'|e] eqn:E; [|discriminate].
      inversion H; subst. destruct (IH i tl' E) as (Hl & Hn & Ho).
      repeat split; simpl; auto.
      intros [|j] Hj; [reflexivity|]. apply Ho. congruence.
Qed.

Lemma bind_Ok_inv {A B} (m : M A) (k : A -> M B) (l : list event) (b : B) :
  bind m k = (l, Ok b) ->
  exists l1 a l2, m = (l1, Ok a) /\ k a = (l2, Ok b) /\ l = l1 ++ l2.
Proof.
  destruct m as [l1 [a|e]]; simpl; [|discriminate].
  destruct (k a) as [l2 r] eqn:E. intros H. inversion H; subst.
  exists l1, a, l2. auto.
Qed.

Lemma lift_Ok_inv {A} (r : result A) (l : list event) (a : A) :
  lift r = (l, Ok a) -> r = Ok a /\ l = [].
Proof. unfold lift. intros H. inversion H; auto. Qed.

(** What one turn of the first loop leaves at the index it writes, and that
    it writes nowhere else. *)
Lemma term_step_Ok :
  forall s spot eds dc qc a i a',
    term_step s spot eds dc qc a i = Ok a' ->
    exists ed,
      nth_error eds i = Some ed /\
      setitem (ta_texp a) i (year_frac ed spot) = Ok (ta_texp a') /\
      setitem (ta_r a) i
              (- np_log (curve_df dc (year_frac ed spot)) / year_frac ed spot)
      = Ok (ta_r a') /\
      setitem (ta_q a) i
              (- np_log (curve_df qc (year_frac ed spot)) / year_frac ed spot)
      = Ok (ta_q a') /\
      setitem (ta_F0T a) i
              (s * curve_df qc (year_frac ed spot)
               / curve_df dc (year_frac ed spot))
      = Ok (ta_F0T a').
Proof.
  intros s spot eds dc qc a i a'. unfold term_step.
  destruct (getitem eds i) as [ed|] eqn:Eed; cbn [rbind]; [|discriminate].
  destruct (setitem (ta_texp a) i _) as [t'|] eqn:Et; cbn [rbind];
    [|discriminate].
  destruct (setitem (ta_r a) i _) as [r'|] eqn:Er; cbn [rbind];
    [|discriminate].
  destruct (setitem (ta_q a) i _) as [q'|] eqn:Eq; cbn [rbind];
    [|discriminate].
  destruct (setitem (ta_F0T a) i _) as [F'|] eqn:EF; cbn [rbind];
    [|discriminate].
  intros H. inversion H; subst. cbn [ta_texp ta_r ta_q ta_F0T].
  exists ed. apply getitem_Ok in Eed. auto.
Qed.

(** The first loop over [k, k+1, ..., k+m-1]. *)
Lemma term_loop :
  forall s spot eds dc qc m k a a',
    for_result (term_step s spot eds dc qc) a (seq k m) = Ok a' ->
    (length (ta_texp a') = length (ta_texp a) /\
     length (ta_r a') = length (ta_r a) /\
     length (ta_q a') = length (ta_q a) /\
     length (ta_F0T a') = length (ta_F0T a)) /\
    (forall i, (i < k)%nat ->
       nth_error (ta_texp a') i = nth_error (ta_texp a) i /\
       nth_error (ta_r a') i = nth_error (ta_r a) i /\
       nth_error (ta_q a') i = nth_error (ta_q a) i /\
       nth_error (ta_F0T a') i = nth_error (ta_F0T a) i) /\
    (forall i, (k <= i < k + m)%nat ->
       exists ed,
         nth_error eds i = Some ed /\
         nth_error (ta_texp a') i = Some (year_frac ed spot) /\
         nth_error (ta_r a') i =
           Some (- np_log (curve_df dc (year_frac ed spot))
                 / year_frac ed spot) /\
         nth_error (ta_q a') i =
           Some (- np_log (curve_df qc (year_frac ed spot))
                 / year_frac ed spot) /\
         nth_error (ta_F0T a') i =
           Some (s * curve_df qc (year_frac ed spot)
                 / curve_df dc (year_frac ed spot))).
Proof.
  intros s spot eds dc qc. induction m as [|m IH]; intros k a a' H.
  - simpl in H. inversion H; subst. repeat split; auto. intros i Hi. lia.
  - cbn [seq for_result] in H.
    destruct (term_step s spot eds dc qc a k) as [a1|] eqn:E1; [|discriminate].
    destruct (term_step_Ok _ _ _ _ _ _ _ _ E1)
      as (ed & Hed & Ht & Hr & Hq & HF).
    apply setitem_Ok in Ht as (Lt & Nt & Ot).
    apply setitem_Ok in Hr as (Lr & Nr & Or).
    apply setitem_Ok in Hq as (Lq & Nq & Oq).
    apply setitem_Ok in HF as (LF & NF & OF).
    destruct (IH (S k) a1 a' H) as ((L1 & L2 & L3 & L4) & Hlow & Hin).
    split; [repeat split; congruence|]. split.
    + intros i Hi. destruct (Hlow i ltac:(lia)) as (H1 & H2 & H3 & H4).
      rewrite H1, H2, H3, H4, Ot, Or, Oq, OF by lia. auto.
    + intros i Hi. destruct (Nat.eq_dec i k) as [->|Hne].
      * destruct (Hlow k ltac:(lia)) as (H1 & H2 & H3 & H4).
        exists ed. rewrite H1, H2, H3, H4. auto.
      * apply Hin. lia.
Qed.

Lemma perform_all_id :
  forall (DeltaMethod : Type) self (qs : list (query DeltaMethod)),
    perform_all self qs = self.
Proof.
  intros DeltaMethod self qs. revert self.
  induction qs as [|qy qs IH]; intros self; [reflexivity|].
  cbn [perform_all]. destruct qy; cbn [perform fst]; apply IH.
Qed.

(** What [_buildVolSurface] leaves in the per-expiry vectors. *)
Lemma _buildVolSurface_term_structure :
  forall self solver l self',
    _buildVolSurface self solver = (l, Ok self') ->
    length (_texp self') = _numExpiryDates self /\
    length (_F0T self') = _numExpiryDates self /\
    length (_r self') = _numExpiryDates self /\
    length (_q self') = _numExpiryDates self /\
    forall i, (i < _numExpiryDates self)%nat ->
      exists ed,
        nth_error (_expiry_dates self) i = Some ed /\
        nth_error (_texp self') i =
          Some (year_frac ed (_valuation_date self)) /\
        nth_error (_F0T self') i =
          Some (_stock_price self
                * curve_df (_dividend_curve self)
                           (year_frac ed (_valuation_date self))
                / curve_df (_discount_curve self)
                           (year_frac ed (_valuation_date self))) /\
        nth_error (_r self') i =
          Some (- np_log (curve_df (_discount_curve self)
                                   (year_frac ed (_valuation_date self)))
                / year_frac ed (_valuation_date self)).
Proof.
  intros self solver l self' H. unfold _buildVolSurface in H.
  apply bind_Ok_inv in H as (l1 & a & l2 & Ha & H & _).
  apply lift_Ok_inv in Ha as [Ha _].
  apply bind_Ok_inv in H as (l3 & st & l4 & _ & H & _).
  unfold ret in H. inversion H; subst self'; clear H.
  cbn [_texp _F0T _r _q].
  destruct (term_loop _ _ _ _ _ _ _ _ _ Ha) as ((L1 & L2 & L3 & L4) & _ & Hin).
  cbn [ta_texp ta_r ta_q ta_F0T] in L1, L2, L3, L4.
  unfold np_zeros in *. rewrite repeat_length in L1, L2, L3, L4.
  repeat split; auto.
  intros i Hi. destruct (Hin i ltac:(lia)) as (ed & Hed & Ht & Hr & _ & HF).
  exists ed. auto.
Qed.

(** A constructed surface keeps what it was given, has one tenor per
    expiry date, and the tenor of a date is its year fraction. *)
Lemma __init___well_formed :
  forall vd s dc qc eds ks grid ty solver l self,
    __init__ vd s dc qc eds ks grid ty solver = (l, Ok self) ->
    _valuation_date self = vd /\
    _expiry_dates self = eds /\
    _numExpiryDates self = length eds /\
    _volatility_function_type self = ty /\
    (1 <= _numExpiryDates self)%nat /\
    length (_texp self) = _numExpiryDates self /\
    forall i ed,
      nth_error (_expiry_dates self) i = Some ed ->
      nth_error (_texp self) i = Some (year_frac ed (_valuation_date self)).
Proof.
  intros vd s dc qc eds ks grid ty solver l self H.
  unfold __init__ in H.
  apply bind_Ok_inv in H as (l1 & row0 & l2 & Hrow & H & _).
  apply lift_Ok_inv in Hrow as [Hrow _]. apply getitem_Ok in Hrow.
  destruct (length grid =? length eds)%nat eqn:En; cbn [negb] in H;
    [|discriminate].
  destruct (negb _); [discriminate|].
  apply Nat.eqb_eq in En.
  assert (Hpos : (1 <= length eds)%nat).
  { rewrite <- En. destruct grid; [discriminate|simpl; lia]. }
  pose proof (_buildVolSurface_term_structure _ _ _ _ H) as Hts.
  cbn [_numExpiryDates _expiry_dates _valuation_date _stock_price
       _dividend_curve _discount_curve] in Hts.
  destruct Hts as (L1 & _ & _ & _ & Hin).
  unfold _buildVolSurface in H.
  apply bind_Ok_inv in H as (l3 & a & l4 & _ & H & _).
  apply bind_Ok_inv in H as (l5 & st & l6 & _ & H & _).
  unfold ret in H. inversion H; subst self; clear H.
  cbn [_valuation_date _expiry_dates _numExpiryDates
       _volatility_function_type _texp] in *.
  repeat split; auto.
  intros i ed Hed.
  destruct (Hin i) as (ed' & Hed' & Ht & _).
  { apply nth_error_Some. congruence. }
  congruence.
Qed.

(** C8.  After construction, for every expiry [i] with date [ed] and year
    fraction [t_i] from the valuation date: [_texp[i] = t_i],
    [_F0T[i] = spot * dividendDF(t_i) / discountDF(t_i)] and
    [_r[i] = -ln(discountDF(t_i)) / t_i]; the vectors have one entry per
    expiry; and the object is the same after any sequence of queries. *)
Theorem C8_term_structure_invariant :
  forall (DeltaMethod : Type) vd s dc qc eds ks grid ty solver l self,
    __init__ vd s dc qc eds ks grid ty solver = (l, Ok self) ->
    (length (_texp self) = length eds /\
     length (_F0T self) = length eds /\
     length (_r self) = length eds) /\
    (forall i ed,
        nth_error eds i = Some ed ->
        nth_error (_texp self) i = Some (year_frac ed vd) /\
        nth_error (_F0T self) i =
          Some (s * curve_df qc (year_frac ed vd)
                / curve_df dc (year_frac ed vd)) /\
        nth_error (_r self) i =
          Some (- np_log (curve_df dc (year_frac ed vd))
                / year_frac ed vd)) /\
    (forall qs : list (query DeltaMethod),
        perform_all self qs = self /\
        _F0T (perform_all self qs) = _F0T self /\
        _r (perform_all self qs) = _r self).
Proof.
  intros DeltaMethod vd s dc qc eds ks grid ty solver l self H.
  unfold __init__ in H.
  apply bind_Ok_inv in H as (l1 & row0 & l2 & _ & H & _).
  destruct (negb _); [discriminate|].
  destruct (negb _); [discriminate|].
  apply _buildVolSurface_term_structure in H.
  cbn [_numExpiryDates _expiry_dates _valuation_date _stock_price
       _dividend_curve _discount_curve] in H.
  destruct H as (L1 & L2 & L3 & _ & Hin).
  split; [auto|]. split.
  - intros i ed Hed.
    destruct (Hin i) as (ed' & Hed' & Ht & HF & Hr).
    { apply nth_error_Some. congruence. }
    assert (ed' = ed) by congruence. subst. auto.
  - intros qs. rewrite perform_all_id. auto.
Qed.

(** A calibration records itself once, with its expiry and initial guess. *)
Lemma calibrations_app (l1 l2 : list event) :
  calibrations (l1 ++ l2) = calibrations l1 ++ calibrations l2.
Proof. unfold calibrations. apply flat_map_app. Qed.

Lemma calibrations_of_horizon :
  forall s t r q strikes i grid vtv xinits solver,
    calibrations
      (fst (_solveToHorizon s t r q strikes i grid vtv xinits solver)) =
    [(i, xinits)].
Proof.
  intros. unfold _solveToHorizon. cbv zeta. rewrite bind_log.
  cbn [fst calibrations flat_map app]. f_equal.
  rewrite fst_bind, calibrations_app.
  assert (Htry : forall m h : M (option (list float)),
             calibrations (fst m) = [] -> calibrations (fst h) = [] ->
             calibrations (fst (try_except m h)) = []).
  { intros [l1 [a|e]] [l2 r2] H1 H2; simpl in *; auto.
    now rewrite calibrations_app, H1, H2. }
  rewrite Htry.
  - destruct (snd (try_except _ _)) as [[v|]|e]; reflexivity.
  - destruct solver; unfold call_minimize, call_nelder_mead;
      rewrite bind_assoc, bind_log, bind_lift;
      match goal with |- context [match ?c with _ => _ end] => destruct c end;
      reflexivity.
  - destruct solver; cbn [FinSolverTypes_eqb negb]; try reflexivity;
      unfold call_minimize; rewrite bind_log, bind_assoc, bind_log, bind_lift;
      match goal with |- context [match ?c with _ => _ end] => destruct c end;
      reflexivity.
Qed.

(** One turn of the calibration loop that goes through. *)
Lemma calib_step_Ok :
  forall s a strikes grid vtv np solver params xinits i l st',
    calib_step s a strikes grid vtv np solver (params, xinits) i
    = (l, Ok st') ->
    exists t r q xi res row params',
      getitem (ta_texp a) i = Ok t /\
      getitem (ta_r a) i = Ok r /\
      getitem (ta_q a) i = Ok q /\
      getitem xinits i = Ok xi /\
      _solveToHorizon s t r q strikes i grid vtv xi solver = (l, Ok res) /\
      assign_row np res = Ok row /\
      setitem params i row = Ok params' /\
      st' = (params', xinits ++ [res]).
Proof.
  intros s a strikes grid vtv np solver params xinits i l st' H.
  unfold calib_step in H.
  apply bind_Ok_inv in H as (l1 & t & l1' & Ht & H & ->).
  apply lift_Ok_inv in Ht as [Ht ->].
  apply bind_Ok_inv in H as (l2 & r & l2' & Hr & H & ->).
  apply lift_Ok_inv in Hr as [Hr ->].
  apply bind_Ok_inv in H as (l3 & q & l3' & Hq & H & ->).
  apply lift_Ok_inv in Hq as [Hq ->].
  apply bind_Ok_inv in H as (l4 & xi & l4' & Hxi & H & ->).
  apply lift_Ok_inv in Hxi as [Hxi ->].
  apply bind_Ok_inv in H as (l5 & res & l5' & Hres & H & ->).
  apply bind_Ok_inv in H as (l6 & row & l6' & Hrow & H & ->).
  apply lift_Ok_inv in Hrow as [Hrow ->].
  apply bind_Ok_inv in H as (l7 & params' & l7' & Hp & H & ->).
  apply lift_Ok_inv in Hp as [Hp ->].
  unfold ret in H. inversion H; subst.
  exists t, r, q, xi, res, row, params'.
  cbn [app]. rewrite app_nil_r. auto 10.
Qed.

(** The calibration loop over [k, ..., k+m-1], entered with the [k+1]
    vectors [xinits]: it appends the fitted vectors [fits], and with [xs]
    the list it ends with, calibration [i] starts from [xs[i]] and returns
    [xs[i+1]]. *)
Lemma calib_loop :
  forall s a strikes grid vtv np solver m k params xinits l params' xinits',
    for_M (calib_step s a strikes grid vtv np solver)
          (params, xinits) (seq k m) = (l, Ok (params', xinits')) ->
    length xinits = S k ->
    exists fits,
      length fits = m /\
      xinits' = xinits ++ fits /\
      calibrations l =
        map (fun i => (i, nth i (xinits ++ fits) [])) (seq k m) /\
      length params' = length params /\
      (forall i, (i < k)%nat -> nth_error params' i = nth_error params i) /\
      (forall i, (k <= i < k + m)%nat ->
         exists t r q row,
           nth_error (ta_texp a) i = Some t /\
           nth_error (ta_r a) i = Some r /\
           nth_error (ta_q a) i = Some q /\
           snd (_solveToHorizon s t r q strikes i grid vtv
                                (nth i (xinits ++ fits) []) solver)
           = Ok (nth (S i) (xinits ++ fits) []) /\
           assign_row np (nth (S i) (xinits ++ fits) []) = Ok row /\
           nth_error params' i = Some row).
Proof.
  intros s a strikes grid vtv np solver.
  induction m as [|m IH];
    intros k params xinits l params' xinits' H Hlen.
  - cbn [seq for_M] in H. unfold ret in H. inversion H; subst.
    exists []. rewrite app_nil_r. repeat split; auto. intros i Hi. lia.
  - cbn [seq for_M] in H.
    apply bind_Ok_inv in H as (l1 & st1 & l2 & Hstep & Hrest & ->).
    apply calib_step_Ok in Hstep
      as (t & r & q & xi & res & row & params1 &
          Ht & Hr & Hq & Hxi & Hres & Hrow & Hp & ->).
    apply IH in Hrest; [|rewrite length_app; simpl; lia].
    destruct Hrest as (fits & Hfl & -> & Hcal & Hpl & Hlow & Hin).
    apply setitem_Ok in Hp as (Lp & Np & Op).
    apply getitem_Ok in Ht, Hr, Hq, Hxi.
    assert (Hxs : (xinits ++ [res]) ++ fits = xinits ++ res :: fits)
      by (now rewrite <- app_assoc).
    rewrite Hxs in *.
    assert (Hnk : nth k (xinits ++ res :: fits) [] = xi).
    { rewrite app_nth1 by lia. now apply nth_error_nth. }
    assert (HnSk : nth (S k) (xinits ++ res :: fits) [] = res).
    { rewrite app_nth2 by lia. now replace (S k - length xinits)%nat with 0%nat by lia. }
    exists (res :: fits). simpl length.
    split; [lia|]. split; [reflexivity|]. split.
    + rewrite calibrations_app, Hcal.
      replace l1 with
        (fst (_solveToHorizon s t r q strikes k grid vtv xi solver))
        by (now rewrite Hres).
      rewrite calibrations_of_horizon. cbn [seq map app]. now rewrite Hnk.
    + split; [congruence|]. split.
      * intros i Hi. rewrite Hlow by lia. apply Op. lia.
      * intros i Hi. destruct (Nat.eq_dec i k) as [->|Hne].
        -- exists t, r, q, row. rewrite Hnk, HnSk, Hres.
           rewrite Hlow by lia. auto 10.
        -- apply Hin. lia.
Qed.

(** C9.  A construction that goes through has calibrated the expiries one
    after the other in list order, each once: with [fits] the fitted vectors
    the calibrations returned, calibration 0 started from the zero vector of
    the family's parameter count and calibration [i >= 1] from [fits[i-1]],
    what calibration [i-1] returned; row [i] of the parameter matrix is
    [fits[i]]. *)
Theorem C9_warm_start :
  forall self solver l self',
    _buildVolSurface self solver = (l, Ok self') ->
    let zero :=
      np_zeros (num_parameters_of (_volatility_function_type self)) in
    exists fits : list (list float),
      length fits = _numExpiryDates self /\
      calibrations l =
        map (fun i => (i, nth i (zero :: fits) []))
            (seq 0 (_numExpiryDates self)) /\
      nth 0 (zero :: fits) [] = zero /\
      (forall i, nth (S i) (zero :: fits) [] = nth i fits []) /\
      (forall i, (i < _numExpiryDates self)%nat ->
         exists t r q row,
           nth_error (_texp self') i = Some t /\
           nth_error (_r self') i = Some r /\
           nth_error (_q self') i = Some q /\
           snd (_solveToHorizon
                  (_stock_price self) t r q (_strikes self) i
                  (_volatility_grid self)
                  (vol_type_value (_volatility_function_type self))
                  (nth i (zero :: fits) []) solver)
           = Ok (nth i fits []) /\
           assign_row (num_parameters_of (_volatility_function_type self))
                      (nth i fits []) = Ok row /\
           nth_error (_parameters self') i = Some row).
Proof.
  intros self solver l self' H zero. unfold _buildVolSurface in H.
  apply bind_Ok_inv in H as (l1 & a & l2 & Ha & H & ->).
  apply lift_Ok_inv in Ha as [Ha ->].
  apply bind_Ok_inv in H as (l3 & [params' xinits'] & l4 & Hloop & H & ->).
  unfold ret in H. inversion H; subst self' l4; clear H.
  cbn [_texp _r _q _parameters fst].
  apply calib_loop in Hloop; [|reflexivity].
  destruct Hloop as (fits & Hfl & _ & Hcal & _ & _ & Hin).
  exists fits. cbn [app] in *. rewrite app_nil_r.
  fold zero in Hcal, Hin.
  split; [exact Hfl|]. split; [exact Hcal|].
  split; [reflexivity|]. split; [reflexivity|].
  intros i Hi. destruct (Hin i ltac:(lia)) as (t & r & q & row & Hx).
  exists t, r, q, row. exact Hx.
Qed.

End Construction.

(* ================================================================== *)
(** ** Further behaviour of the calibrator and of the dispatch         *)
(* ================================================================== *)

Section CalibratorBehaviour.

Context {X : Externals}.

Local Open Scope float_scope.

(** X1.  Every run of [_solveToHorizon] records the calibration, then calls the
    primary optimizer once; it calls a second optimizer at most once, only
    when the primary choice is not conjugate gradient, and then it is
    conjugate gradient from the same initial guess with the tolerance 1e-6,
    announced by the printed line. *)
Theorem _solveToHorizon_call_pattern :
  forall s t r q strikes timeIndex grid vtv xinits solver,
    let l :=
      fst (_solveToHorizon s t r q strikes timeIndex grid vtv xinits solver)
    in
    l = [EvCalibrate timeIndex xinits solver; primary_event solver xinits] \/
    (solver <> CONJUGATE_GRADIENT /\
     l = [EvCalibrate timeIndex xinits solver; primary_event solver xinits;
          EvPrint "Failed to converge, will try CG";
          EvMinimize "CG" xinits tol_1e_6]).
Proof.
  intros s t r q strikes timeIndex grid vtv xinits solver l. subst l.
  unfold _solveToHorizon.
  destruct solver; simpl;
    unfold call_minimize, call_nelder_mead; simpl.
  - destruct (minimize _ xinits "CG" tol_1e_6); simpl; auto.
  - destruct (minimize _ xinits "Nelder-Mead" tol_1e_6); simpl; auto.
    right. split; [discriminate|].
    destruct (minimize _ xinits "CG" tol_1e_6); simpl; auto.
  - destruct (nelder_mead _ xinits tol_1e_6 tol_1e_6 1000); simpl; auto.
    right. split; [discriminate|].
    destruct (minimize _ xinits "CG" tol_1e_6); simpl; auto.
Qed.

(** X4.  The dispatch.  The enumeration's values being distinct: on the value of
    a family [volFunction] returns what that family's formula gives, the
    cubic of Clark serving both [CLARK] and [CLARK5]; on an integer that is
    the value of no family it raises the unknown-model error. *)
Theorem volFunction_dispatch :
  values_distinct ->
  (forall ty params f k t,
      volFunction (vol_type_value ty) params f k t
      = Ok (formula_of ty params f k t)) /\
  (forall v params f k t,
      (forall ty, v <> vol_type_value ty) ->
      volFunction v params f k t = Raise (FinError "Unknown Model Type")).
Proof.
  intros Hd. split.
  - intros ty params f k t. unfold volFunction.
    assert (Hne : forall a b, a <> b ->
                  (vol_type_value a =? vol_type_value b)%Z = false).
    { intros a b Hab. apply Z.eqb_neq. intros E. apply Hab, Hd, E. }
    destruct ty; cbn [formula_of];
      repeat first
        [ rewrite Z.eqb_refl; reflexivity
        | rewrite Hne by discriminate ].
  - intros v params f k t Hv. unfold volFunction.
    repeat match goal with
           | |- context [(v =? vol_type_value ?ty)%Z] =>
               replace (v =? vol_type_value ty)%Z with false
                 by (symmetry; apply Z.eqb_neq, Hv)
           end.
    reflexivity.
Qed.

End CalibratorBehaviour.

(* ================================================================== *)
(** ** Further behaviour of the objective and of the constructor       *)
(* ================================================================== *)

Section ConstructionBehaviour.

Context {X : Externals}.

Local Open Scope float_scope.

(** The loop of [_obj] over the strikes [k, ..., k+m-1], every one of them
    present in the strike list and in the market row. *)
Lemma _obj_loop_total :
  forall params a f row m k tot,
    (exists ty, oa_volTypeValue a = vol_type_value ty) ->
    nth_error (oa_volatility_grid a) (oa_index a) = Some row ->
    (k + m <= length (oa_strikes a))%nat ->
    (k + m <= length row)%nat ->
    exists v, for_result (_obj_term params a f) tot (seq k m) = Ok v.
Proof.
  intros params a f row m. induction m as [|m IH];
    intros k tot Hty Hrow Hs Hr.
  - eexists. reflexivity.
  - cbn [seq for_result]. unfold _obj_term at 1.
    destruct (nth_error (oa_strikes a) k) as [sk|] eqn:Ek;
      [|apply nth_error_None in Ek; lia].
    rewrite (proj2 (getitem_Ok _ _ _) Ek). cbn [rbind].
    destruct Hty as [ty Hty].
    destruct (volFunction_known ty params f sk (oa_t a)) as [v Hv].
    rewrite Hty, Hv. cbn [rbind].
    rewrite (proj2 (getitem_Ok _ _ _) Hrow). cbn [rbind].
    destruct (nth_error row k) as [mk|] eqn:Em;
      [|apply nth_error_None in Em; lia].
    rewrite (proj2 (getitem_Ok _ _ _) Em). cbn [rbind].
    apply IH; eauto; lia.
Qed.

(** X5.  The objective is defined on a rectangular input.  With a known family,
    a market row at the expiry's index, and at least as many strikes and
    market volatilities in that row as the first row has entries, [_obj]
    returns a value for every parameter vector. *)
Theorem _obj_total :
  forall a params row0 row,
    (exists ty, oa_volTypeValue a = vol_type_value ty) ->
    nth_error (oa_volatility_grid a) 0 = Some row0 ->
    nth_error (oa_volatility_grid a) (oa_index a) = Some row ->
    (length row0 <= length (oa_strikes a))%nat ->
    (length row0 <= length row)%nat ->
    exists v, _obj a params = Ok v.
Proof.
  intros a params row0 row Hty H0 Hrow Hs Hr. unfold _obj.
  rewrite (proj2 (getitem_Ok _ _ _) H0). cbn [rbind].
  apply (_obj_loop_total params a _ row); auto.
Qed.

(** X6.  The constructor's checks.  An empty grid raises [IndexError]; a grid
    whose row count is not the number of expiry dates is refused first;
    then a grid whose first row has not one entry per strike; in each case
    before any calibration is started.  Only the first row's length is
    looked at. *)
Theorem __init___dimension_checks :
  forall vd s dc qc eds ks grid ty solver,
    let run := __init__ vd s dc qc eds ks grid ty solver in
    (grid = [] -> run = ([], Raise IndexError)) /\
    (forall row0 rest,
        grid = row0 :: rest ->
        length grid <> length eds ->
        run = ([], Raise
                 (FinError "1st dimension of vol grid is not nExpiryDates")))
    /\
    (forall row0 rest,
        grid = row0 :: rest ->
        length grid = length eds ->
        length row0 <> length ks ->
        run = ([], Raise
                 (FinError
                    "2nd dimension of the vol matrix is not nStrikes"))).
Proof.
  intros vd s dc qc eds ks grid ty solver run. subst run.
  unfold __init__. repeat split.
  - intros ->. reflexivity.
  - intros row0 rest -> Hn. rewrite bind_lift. cbn [getitem nth_error].
    apply Nat.eqb_neq in Hn. now rewrite Hn.
  - intros row0 rest -> Hn Hm. rewrite bind_lift. cbn [getitem nth_error].
    apply Nat.eqb_eq in Hn. apply Nat.eqb_neq in Hm.
    now rewrite Hn, Hm.
Qed.

Lemma assign_row_length :
  forall np res row, assign_row np res = Ok row -> length row = np.
Proof.
  intros np res row. unfold assign_row.
  destruct (length res =? np)%nat eqn:E.
  - intros H. inversion H; subst. now apply Nat.eqb_eq.
  - destruct res as [|v [|w res]]; try discriminate.
    intros H. inversion H. apply repeat_length.
Qed.

(** What [_buildVolSurface] leaves untouched, and the shape of what it
    fills. *)
Lemma _buildVolSurface_shape :
  forall self solver l self',
    _buildVolSurface self solver = (l, Ok self') ->
    (_valuation_date self' = _valuation_date self /\
     _stock_price self' = _stock_price self /\
     _strikes self' = _strikes self /\
     _numStrikes self' = _numStrikes self /\
     _expiry_dates self' = _expiry_dates self /\
     _numExpiryDates self' = _numExpiryDates self /\
     _volatility_grid self' = _volatility_grid self /\
     _volatility_function_type self' = _volatility_function_type self) /\
    length (_parameters self') = _numExpiryDates self /\
    Forall (fun row =>
              length row =
              num_parameters_of (_volatility_function_type self))
           (_parameters self').
Proof.
  intros self solver l self' H. unfold _buildVolSurface in H.
  apply bind_Ok_inv in H as (l1 & a & l2 & _ & H & _).
  apply bind_Ok_inv in H as (l3 & [params' xinits'] & l4 & Hloop & H & _).
  unfold ret in H. inversion H; subst self'; clear H.
  cbn [_valuation_date _stock_price _strikes _numStrikes _expiry_dates
       _numExpiryDates _volatility_grid _volatility_function_type
       _parameters fst].
  apply calib_loop in Hloop; [|reflexivity].
  destruct Hloop as (fits & _ & _ & _ & Hlen & _ & Hin).
  rewrite repeat_length in Hlen.
  split; [repeat split|]. split; [exact Hlen|].
  apply Forall_forall. intros row Hrow.
  apply In_nth_error in Hrow as [i Hi].
  assert (Hlt : (i < length params')%nat)
    by (apply nth_error_Some; congruence).
  destruct (Hin i) as (t & r & q & row' & _ & _ & _ & _ & Hassign & Hnth);
    [lia|].
  assert (row' = row) by congruence. subst row'.
  exact (assign_row_length _ _ _ Hassign).
Qed.

(** X7.  The invariant of a constructed surface.  A constructor call that
    returns gives an object that keeps its inputs, has at least one expiry,
    one tenor, forward, zero rate and dividend yield per expiry date, one
    parameter row per expiry, and in every row exactly the parameter count
    of the family. *)
Theorem __init___builds_well_formed :
  forall vd s dc qc eds ks grid ty solver l self,
    __init__ vd s dc qc eds ks grid ty solver = (l, Ok self) ->
    well_formed self = true /\
    _valuation_date self = vd /\
    _stock_price self = s /\
    _strikes self = ks /\
    _expiry_dates self = eds /\
    _volatility_grid self = grid /\
    _volatility_function_type self = ty /\
    _numExpiryDates self = length eds /\
    _numStrikes self = length ks /\
    length grid = length eds.
Proof.
  intros vd s dc qc eds ks grid ty solver l self H.
  unfold __init__ in H.
  apply bind_Ok_inv in H as (l1 & row0 & l2 & Hrow & H & _).
  apply lift_Ok_inv in Hrow as [Hrow _]. apply getitem_Ok in Hrow.
  destruct (length grid =? length eds)%nat eqn:En; cbn [negb] in H;
    [|discriminate].
  destruct (negb _); [discriminate|].
  apply Nat.eqb_eq in En.
  assert (Hpos : (1 <= length eds)%nat).
  { rewrite <- En. destruct grid; [discriminate|simpl; lia]. }
  pose proof (_buildVolSurface_term_structure _ _ _ _ H) as Hts.
  pose proof (_buildVolSurface_shape _ _ _ _ H) as Hsh.
  cbn [_numExpiryDates _expiry_dates _valuation_date _stock_price
       _dividend_curve _discount_curve _strikes _numStrikes
       _volatility_grid _volatility_function_type] in Hts, Hsh.
  destruct Hts as (L1 & L2 & L3 & L4 & _).
  destruct Hsh as ((F1 & F2 & F3 & F4 & F5 & F6 & F7 & F8) & LP & Hrows).
  repeat split; auto.
  unfold well_formed. rewrite F5, F6, F8, L1, L2, L3, L4, LP.
  rewrite !Nat.eqb_refl.
  replace (1 <=? length eds)%nat with true
    by (symmetry; apply Nat.leb_le; exact Hpos).
  cbn [andb]. apply forallb_forall. intros row Hin.
  apply Nat.eqb_eq. rewrite Forall_forall in Hrows. now apply Hrows.
Qed.

(** One turn of the calibration loop starts at most one calibration, that
    of its own expiry, and exactly one when it goes through. *)
Lemma calib_step_calibrations :
  forall s a strikes grid vtv np solver params xinits i,
    let run :=
      calib_step s a strikes grid vtv np solver (params, xinits) i in
    (calibrated_expiries (fst run) = [] /\
     forall st', snd run <> Ok st') \/
    calibrated_expiries (fst run) = [i].
Proof.
  intros s a strikes grid vtv np solver params xinits i run. subst run.
  unfold calib_step, calibrated_expiries.
  repeat (rewrite bind_lift;
          match goal with
          | |- context [match ?r with Ok _ => _ | Raise _ => _ end] =>
              destruct r; [|left; split; [reflexivity|discriminate]]
          end).
  right. rewrite fst_bind, calibrations_app, calibrations_of_horizon.
  destruct (snd (_solveToHorizon _ _ _ _ _ _ _ _ _ _)) as [res|e];
    [|reflexivity].
  rewrite bind_lift. destruct (assign_row np res) as [row|e]; [|reflexivity].
  rewrite bind_lift. destruct (setitem params i row); reflexivity.
Qed.

Lemma calib_loop_order :
  forall s a strikes grid vtv np solver m k params xinits,
    let run :=
      for_M (calib_step s a strikes grid vtv np solver)
            (params, xinits) (seq k m) in
    exists c,
      (c <= m)%nat /\
      calibrated_expiries (fst run) = seq k c /\
      (forall st', snd run = Ok st' -> c = m).
Proof.
  intros s a strikes grid vtv np solver.
  induction m as [|m IH]; intros k params xinits run; subst run.
  - exists 0%nat. cbn [seq for_M]. repeat split; auto.
  - cbn [seq for_M].
    pose proof (calib_step_calibrations s a strikes grid vtv np solver
                  params xinits k) as Hstep.
    cbv zeta in Hstep.
    destruct (calib_step s a strikes grid vtv np solver (params, xinits) k)
      as [l1 [[params1 xinits1]|e]] eqn:Estep; cbn [fst snd] in Hstep.
    + destruct Hstep as [[_ Hno]|Hone]; [exfalso; eapply Hno; reflexivity|].
      specialize (IH (S k) params1 xinits1). cbv zeta in IH.
      destruct IH as (c & Hc & Hord & Hok).
      exists (S c). rewrite fst_bind, snd_bind. cbn [fst snd].
      unfold calibrated_expiries in *.
      rewrite calibrations_app, map_app, Hone, Hord. cbn [seq app].
      repeat split; [lia|]. intros st' H. f_equal. eauto.
    + destruct Hstep as [[Hnil _]|Hone].
      * exists 0%nat. cbn [bind fst snd seq]. repeat split; [lia|auto|].
        discriminate.
      * exists 1%nat. cbn [bind fst snd seq]. repeat split; [lia|auto|].
        discriminate.
Qed.

(** X8.  The order of construction, also when it is cut short.  Every run of
    [_buildVolSurface] starts the calibrations of the expiries
    [0, 1, ..., c-1] in that order, each once, for some [c] that is at most
    the number of expiries; once a calibration raises no later one is
    started; and a run that returns has calibrated every expiry. *)
Theorem _buildVolSurface_calibration_order :
  forall self solver,
    let run := _buildVolSurface self solver in
    exists c,
      (c <= _numExpiryDates self)%nat /\
      calibrated_expiries (fst run) = seq 0 c /\
      (forall self', snd run = Ok self' -> c = _numExpiryDates self).
Proof.
  intros self solver run. subst run. unfold _buildVolSurface.
  rewrite bind_lift.
  destruct (for_result _ _ _) as [a|e].
  - match goal with
    | |- context [for_M ?body ?st ?range] =>
        pose proof (calib_loop_order (_stock_price self) a (_strikes self)
                      (_volatility_grid self)
                      (vol_type_value (_volatility_function_type self))
                      (num_parameters_of (_volatility_function_type self))
                      solver (_numExpiryDates self) 0
                      (fst st) (snd st)) as Hloop
    end.
    cbn [fst snd] in Hloop. cbv zeta in Hloop.
    destruct Hloop as (c & Hc & Hord & Hok).
    exists c. rewrite fst_bind, snd_bind.
    destruct (for_M _ _ _) as [l [st|e]]; cbn [fst snd] in *.
    + unfold ret. cbn [fst]. rewrite app_nil_r.
      repeat split; auto. intros self' _. eauto.
    + rewrite app_nil_r. repeat split; auto. discriminate.
  - exists 0%nat. cbn [raise fst snd seq]. repeat split; [lia|].
    discriminate.
Qed.

End ConstructionBehaviour.

(* ================================================================== *)
(** ** Further behaviour of the queries                                *)
(* ================================================================== *)

Section QueryBehaviour.

Context {X : Externals}.

Local Open Scope float_scope.

(** Whatever the scan returns is the initial pair [(0, 0)] or two adjacent
    tenors that enclose the query time. *)
Lemma bracket_scan_sound :
  forall tau ts todo i,
    (1 <= i)%nat -> (i + todo <= length ts)%nat ->
    exists a b,
      bracket_scan tau ts i todo = Ok (a, b) /\
      ((a = 0%nat /\ b = 0%nat) \/
       (b = S a /\ (i <= b < i + todo)%nat /\
        exists ta tb,
          nth_error ts a = Some ta /\ nth_error ts b = Some tb /\
          (ta <? tau) = true /\ (tau <=? tb) = true)).
Proof.
  intros tau ts. induction todo as [|todo IH]; intros i Hi Hlen.
  - exists 0%nat, 0%nat. split; [reflexivity|left; auto].
  - cbn [bracket_scan].
    destruct (nth_error ts i) as [ti|] eqn:Eti;
      [|apply nth_error_None in Eti; lia].
    rewrite (proj2 (getitem_Ok _ _ _) Eti). cbn [rbind].
    destruct (nth_error ts (i - 1)) as [tp|] eqn:Etp;
      [|apply nth_error_None in Etp; lia].
    destruct (IH (S i)) as (a & b & Hscan & Hab); [lia|lia|].
    assert (Hnext : exists a b,
               bracket_scan tau ts (S i) todo = Ok (a, b) /\
               ((a = 0%nat /\ b = 0%nat) \/
                (b = S a /\ (i <= b < i + S todo)%nat /\
                 exists ta tb,
                   nth_error ts a = Some ta /\ nth_error ts b = Some tb /\
                   (ta <? tau) = true /\ (tau <=? tb) = true))).
    { exists a, b. split; [exact Hscan|].
      destruct Hab as [H0|(Hb & Hr & Ht)]; [left; exact H0|].
      right. split; [exact Hb|]. split; [lia|exact Ht]. }
    destruct (tau <=? ti) eqn:Ele; [|exact Hnext].
    rewrite (proj2 (getitem_Ok _ _ _) Etp). cbn [rbind].
    destruct (tp <? tau) eqn:Elt; [|exact Hnext].
    exists (i - 1)%nat, i. split; [reflexivity|]. right.
    split; [lia|]. split; [lia|]. exists tp, ti. auto.
Qed.

(** Both brackets, on any surface with a tenor per expiry. *)
Lemma brackets_sound :
  forall self tau,
    (1 <= _numExpiryDates self)%nat ->
    length (_texp self) = _numExpiryDates self ->
    bracket_reads_well self tau (bracket_strike self tau) /\
    bracket_reads_well self tau (bracket_delta self tau).
Proof.
  intros self tau Hn Hlen.
  assert (Hcoin : forall i, (i < _numExpiryDates self)%nat ->
                  bracket_reads_well self tau (Ok (i, i))).
  { intros i Hi. exists i, i. auto. }
  assert (Hscan : bracket_reads_well self tau
                    (bracket_scan tau (_texp self) 1
                                  (_numExpiryDates self - 1))).
  { destruct (bracket_scan_sound tau (_texp self)
                (_numExpiryDates self - 1) 1) as (a & b & Hs & Hab);
      [lia|lia|].
    exists a, b. split; [exact Hs|].
    destruct Hab as [[-> ->]|(Hb & Hr & Ht)].
    - split; [lia|left; reflexivity].
    - split; [lia|right; auto]. }
  destruct (nth_error (_texp self) 0) as [t0|] eqn:Et0;
    [|apply nth_error_None in Et0; lia].
  destruct (nth_error (_texp self) (length (_texp self) - 1))
    as [tl|] eqn:Etl; [|apply nth_error_None in Etl; lia].
  split.
  - unfold bracket_strike.
    destruct (_numExpiryDates self =? 1)%nat; [apply Hcoin; lia|].
    rewrite (proj2 (getitem_Ok _ _ _) Et0). cbn [rbind].
    destruct (tau <=? t0); [apply Hcoin; lia|].
    rewrite (proj2 (getitem_last_Ok _ _) Etl). cbn [rbind].
    destruct (tl <=? tau); [apply Hcoin; lia|exact Hscan].
  - unfold bracket_delta.
    destruct (_numExpiryDates self =? 1)%nat; [apply Hcoin; lia|].
    rewrite (proj2 (getitem_Ok _ _ _) Et0). cbn [rbind].
    destruct (tau <=? t0); [apply Hcoin; lia|].
    rewrite (proj2 (getitem_last_Ok _ _) Etl). cbn [rbind].
    destruct (tl <? tau); [apply Hcoin; lia|exact Hscan].
Qed.

(** X9.  The brackets of both queries read well.  On a surface with at least
    one expiry and one tenor per expiry, whatever the order of the tenors
    and whatever the query time, each query gets a bracket, never an error;
    its indices are rows of the surface; and when they differ they are two
    adjacent tenors with [t[i0] < tau <= t[i1]]. *)
Theorem brackets_read_well :
  forall self tau,
    (1 <= _numExpiryDates self)%nat ->
    length (_texp self) = _numExpiryDates self ->
    bracket_reads_well self tau (bracket_strike self tau) /\
    bracket_reads_well self tau (bracket_delta self tau).
Proof. intros self tau Hn Hlen. now apply brackets_sound. Qed.


(** On ascending tenors the scan, entered above the tenor before [i] and
    not above the last tenor, finds the two tenors that enclose the query
    time. *)
Lemma bracket_scan_finds :
  forall tau ts t_last,
    ascending ts = true ->
    nth_error ts (length ts - 1) = Some t_last ->
    (tau <=? t_last) = true ->
    forall todo i t_prev,
      (1 <= i)%nat -> (i + todo = length ts)%nat -> (1 <= todo)%nat ->
      nth_error ts (i - 1) = Some t_prev ->
      (t_prev <? tau) = true ->
      exists k tk tk1,
        bracket_scan tau ts i todo = Ok (k, S k) /\
        nth_error ts k = Some tk /\ nth_error ts (S k) = Some tk1 /\
        (tk <? tau) = true /\ (tau <=? tk1) = true.
Proof.
  intros tau ts t_last Hasc Hlast Hle.
  induction todo as [|todo IH]; intros i t_prev Hi Hlen Htodo Hprev Hlt;
    [lia|].
  cbn [bracket_scan].
  destruct (nth_error ts i) as [ti|] eqn:Eti;
    [|apply nth_error_None in Eti; lia].
  rewrite (proj2 (getitem_Ok _ _ _) Eti). cbn [rbind].
  assert (Hpi : (t_prev <? ti) = true).
  { apply (ascending_adjacent ts (i - 1) t_prev ti Hasc Hprev).
    now replace (S (i - 1)) with i by lia. }
  destruct (tau <=? ti) eqn:Ecmp.
  - rewrite (proj2 (getitem_Ok _ _ _) Hprev). cbn [rbind]. rewrite Hlt.
    exists (i - 1)%nat, t_prev, ti.
    replace (S (i - 1)) with i by lia. auto.
  - assert (Hti : (ti <? tau) = true).
    { apply FloatTotal.not_leb_ltb; [| |exact Ecmp].
      - exact (FloatFacts.ltb_leb_refl_r _ _ Hlt).
      - exact (FloatFacts.ltb_leb_refl_r _ _ Hpi). }
    assert (Hnotlast : i <> (length ts - 1)%nat).
    { intros ->. assert (ti = t_last) by congruence. subst. congruence. }
    apply (IH (S i) ti); try lia; auto.
    now replace (S i - 1)%nat with i by lia.
Qed.

(** X10.  Between the tenors.  On strictly ascending tenors and for a query time
    strictly above the first tenor: the strike query, when the time is
    strictly below the last tenor, and the delta query, when it is at or
    below the last tenor, take the bracket [(k, k+1)] of the two adjacent
    tenors with [t[k] < tau <= t[k+1]]. *)
Theorem brackets_between_tenors :
  forall self tau t_first t_last,
    length (_texp self) = _numExpiryDates self ->
    ascending (_texp self) = true ->
    getitem (_texp self) 0 = Ok t_first ->
    getitem_last (_texp self) = Ok t_last ->
    (t_first <? tau) = true ->
    ((tau <? t_last) = true ->
     exists k tk tk1,
       bracket_strike self tau = Ok (k, S k) /\
       nth_error (_texp self) k = Some tk /\
       nth_error (_texp self) (S k) = Some tk1 /\
       (tk <? tau) = true /\ (tau <=? tk1) = true) /\
    ((tau <=? t_last) = true ->
     exists k tk tk1,
       bracket_delta self tau = Ok (k, S k) /\
       nth_error (_texp self) k = Some tk /\
       nth_error (_texp self) (S k) = Some tk1 /\
       (tk <? tau) = true /\ (tau <=? tk1) = true).
Proof.
  intros self tau t_first t_last Hlen Hasc Hf Hl Hlow.
  pose proof (proj1 (getitem_Ok _ _ _) Hf) as Hf'.
  pose proof (proj1 (getitem_last_Ok _ _) Hl) as Hl'.
  assert (Hpos : (1 <= length (_texp self))%nat).
  { destruct (_texp self); [discriminate|simpl; lia]. }
  assert (Hmany : forall (Hle : (tau <=? t_last) = true),
             (_numExpiryDates self =? 1)%nat = false).
  { intros Hle. apply Nat.eqb_neq. intros H1.
    rewrite Hlen, H1 in Hl'. change (1 - 1)%nat with 0%nat in Hl'.
    assert (t_last = t_first) by congruence. subst.
    pose proof (FloatFacts.ltb_not_leb _ _ Hlow). congruence. }
  split; intros Hup.
  - pose proof (FloatFacts.ltb_leb _ _ Hup) as Hle.
    unfold bracket_strike. rewrite (Hmany Hle), Hf. cbn [rbind].
    rewrite (FloatFacts.ltb_not_leb _ _ Hlow), Hl. cbn [rbind].
    rewrite (FloatFacts.ltb_not_leb _ _ Hup).
    apply (bracket_scan_finds tau (_texp self) t_last Hasc Hl' Hle
             (_numExpiryDates self - 1) 1 t_first); auto.
    + specialize (Hmany Hle). apply Nat.eqb_neq in Hmany. lia.
    + specialize (Hmany Hle). apply Nat.eqb_neq in Hmany. lia.
  - unfold bracket_delta. rewrite (Hmany Hup), Hf. cbn [rbind].
    rewrite (FloatFacts.ltb_not_leb _ _ Hlow), Hl. cbn [rbind].
    rewrite (FloatFacts.leb_not_ltb _ _ Hup).
    apply (bracket_scan_finds tau (_texp self) t_last Hasc Hl' Hup
             (_numExpiryDates self - 1) 1 t_first); auto.
    + specialize (Hmany Hup). apply Nat.eqb_neq in Hmany. lia.
    + specialize (Hmany Hup). apply Nat.eqb_neq in Hmany. lia.
Qed.

Lemma bind_ext {A B} (m : M A) (k1 k2 : A -> M B) :
  (forall a, k1 a = k2 a) -> bind m k1 = bind m k2.
Proof.
  intros H. destruct m as [l [a|e]]; simpl; [now rewrite H|reflexivity].
Qed.

(** A delta query whose bracket endpoints coincide runs on that one tenor:
    one strike search, for the query time, and no interpolation. *)
Lemma delta_query_coincident :
  forall (DeltaMethod : Type) self callDelta d (dm : option DeltaMethod) i,
    bracket_delta self (year_frac d (_valuation_date self)) = Ok (i, i) ->
    volatilityFromDeltaDate self callDelta d dm =
    delta_at_tenor self callDelta (year_frac d (_valuation_date self)) i.
Proof.
  intros DeltaMethod self callDelta d dm i Hbr.
  unfold volatilityFromDeltaDate, delta_at_tenor.
  rewrite Hbr, bind_lift.
  repeat (rewrite !bind_lift;
          match goal with
          | |- context [match getitem ?l ?j with
                        | Ok _ => _
                        | Raise _ => _
                        end] =>
              destruct (getitem l j); [|reflexivity]
          end; cbv beta iota).
  apply bind_ext. intros K0.
  rewrite !bind_lift.
  destruct (volFunction _ _ _ K0 _) as [vol0|e]; [|reflexivity].
  rewrite Nat.eqb_refl. cbn [negb]. rewrite bind_ret.
  now rewrite FloatFacts.sub_diag_not_above.
Qed.

(** X12.  A single tenor answers every query.  On a surface with exactly one
    expiry, for every query date: the strike query is that tenor's smile at
    the strike, and the delta query runs on that tenor alone. *)
Theorem single_tenor_answers_every_date :
  forall (DeltaMethod : Type) self,
    _numExpiryDates self = 1%nat ->
    (forall K d,
        volatilityFromStrikeDate self K d = smile_at self K 0) /\
    (forall callDelta d (dm : option DeltaMethod),
        volatilityFromDeltaDate self callDelta d dm =
        delta_at_tenor self callDelta
                       (year_frac d (_valuation_date self)) 0).
Proof.
  intros DeltaMethod self Hone. split.
  - intros K d. apply strike_query_coincident.
    unfold bracket_strike. now rewrite Hone.
  - intros callDelta d dm. apply delta_query_coincident.
    unfold bracket_delta. now rewrite Hone.
Qed.

(** X13.  Flat extrapolation of the delta query.  The tenors being in order (the
    first not after the last): a delta query strictly below the first tenor
    runs on the first tenor alone, one strictly above the last tenor on the
    last tenor alone; in both cases the strike is searched for the query
    time itself, under the boundary tenor's rates and parameters, and the
    volatility is the boundary tenor's smile at that strike. *)
Theorem delta_flat_extrapolation :
  forall (DeltaMethod : Type) self callDelta d (dm : option DeltaMethod)
         t_first t_last,
    length (_texp self) = _numExpiryDates self ->
    getitem (_texp self) 0 = Ok t_first ->
    getitem_last (_texp self) = Ok t_last ->
    (t_first <=? t_last) = true ->
    ((year_frac d (_valuation_date self) <? t_first) = true ->
     volatilityFromDeltaDate self callDelta d dm =
     delta_at_tenor self callDelta (year_frac d (_valuation_date self)) 0)
    /\
    ((t_last <? year_frac d (_valuation_date self)) = true ->
     volatilityFromDeltaDate self callDelta d dm =
     delta_at_tenor self callDelta (year_frac d (_valuation_date self))
                    (_numExpiryDates self - 1)).
Proof.
  intros DeltaMethod self callDelta d dm t_first t_last Hlen Hf Hl Hasc.
  split; intros Htau; apply delta_query_coincident; unfold bracket_delta.
  - destruct (_numExpiryDates self =? 1)%nat; auto.
    rewrite Hf. cbn [rbind]. now rewrite (FloatFacts.ltb_leb _ _ Htau).
  - destruct (_numExpiryDates self =? 1)%nat eqn:En.
    + apply Nat.eqb_eq in En. now rewrite En.
    + rewrite Hf. cbn [rbind].
      rewrite (FloatFacts.ltb_not_leb _ _
                 (FloatFacts.leb_ltb_trans _ _ _ Hasc Htau)).
      rewrite Hl. cbn [rbind]. now rewrite Htau, Hlen.
Qed.

(** What [well_formed] says, entry by entry. *)
Lemma well_formed_reads :
  forall self,
    well_formed self = true ->
    (1 <= _numExpiryDates self)%nat /\
    length (_texp self) = _numExpiryDates self /\
    forall i, (i < _numExpiryDates self)%nat ->
      exists fwd t r q params,
        getitem (_F0T self) i = Ok fwd /\
        getitem (_texp self) i = Ok t /\
        getitem (_r self) i = Ok r /\
        getitem (_q self) i = Ok q /\
        getitem (_parameters self) i = Ok params.
Proof.
  intros self H. unfold well_formed in H.
  repeat (apply andb_true_iff in H as [H ?]).
  repeat match goal with
         | E : (_ =? _)%nat = true |- _ => apply Nat.eqb_eq in E
         | E : (_ <=? _)%nat = true |- _ => apply Nat.leb_le in E
         end.
  split; [assumption|]. split; [assumption|].
  intros i Hi.
  assert (Hget : forall (A : Type) (l : list A),
             length l = _numExpiryDates self ->
             exists a, getitem l i = Ok a).
  { intros A l Hl. unfold getitem.
    destruct (nth_error l i) eqn:E; [eauto|].
    apply nth_error_None in E. lia. }
  destruct (Hget _ (_F0T self)) as [fwd Hfwd]; [assumption|].
  destruct (Hget _ (_texp self)) as [t Ht]; [assumption|].
  destruct (Hget _ (_r self)) as [r Hr]; [assumption|].
  destruct (Hget _ (_q self)) as [q Hq]; [assumption|].
  destruct (Hget _ (_parameters self)) as [params Hp]; [assumption|].
  exists fwd, t, r, q, params. auto.
Qed.

(** A strike query on a well-formed surface answers or raises the
    negative-variance error. *)
Lemma strike_query_modes :
  forall self K d,
    well_formed self = true ->
    (exists v, volatilityFromStrikeDate self K d = Ok v) \/
    volatilityFromStrikeDate self K d
    = Raise (FinError "Negative variance.").
Proof.
  intros self K d Hwf.
  destruct (well_formed_reads self Hwf) as (Hn & Hlen & Hreads).
  destruct (proj1 (brackets_sound self
                     (year_frac d (_valuation_date self)) Hn Hlen))
    as (i0 & i1 & Hbr & Hi1 & Hshape).
  assert (Hi0 : (i0 < _numExpiryDates self)%nat)
    by (destruct Hshape as [->|[-> _]]; lia).
  destruct (Hreads i0 Hi0)
    as (fwd0 & t0 & r0 & q0 & p0 & HF0 & Ht0 & _ & _ & Hp0).
  destruct (Hreads i1 Hi1)
    as (fwd1 & t1 & r1 & q1 & p1 & HF1 & Ht1 & _ & _ & Hp1).
  destruct (volFunction_known (_volatility_function_type self) p0 fwd0 K t0)
    as [vol0 Hv0].
  destruct (volFunction_known (_volatility_function_type self) p1 fwd1 K t1)
    as [vol1 Hv1].
  assert (Hs0 : smile_at self K i0 = Ok vol0).
  { unfold smile_at. rewrite HF0, Ht0, Hp0. exact Hv0. }
  assert (Hs1 : smile_at self K i1 = Ok vol1).
  { unfold smile_at. rewrite HF1, Ht1, Hp1. exact Hv1. }
  rewrite (strike_query_on_bracket self K d i0 i1 t0 t1 vol0 vol1
             Hbr Ht0 Ht1 Hs0 Hs1).
  destruct (tol_1e_6 <? abs (t1 - t0)); [|eauto].
  destruct (interp _ _ _ _ _ <? 0); eauto.
Qed.

(** X14.  The only way a strike query fails.  On a well-formed surface,
    for every strike and every date, the strike query returns a volatility
    or raises the negative-variance error: it raises no [IndexError] and no
    unknown-model error. *)
Theorem strike_query_failure_modes :
  forall self K d,
    well_formed self = true ->
    (exists v, volatilityFromStrikeDate self K d = Ok v) \/
    volatilityFromStrikeDate self K d
    = Raise (FinError "Negative variance.").
Proof. intros self K d Hwf. now apply strike_query_modes. Qed.

(** X15.  The only ways a delta query fails.  On a well-formed surface, an error
    of the delta query is the negative-variance error of the interpolation
    or the error one of its strike searches raised, on a row of the surface
    and for the query time: no read fails, the smile never raises, and the
    second strike is never missing where the interpolation needs it. *)
Theorem delta_query_failure_modes :
  forall (DeltaMethod : Type) self callDelta d (dm : option DeltaMethod) e,
    well_formed self = true ->
    snd (volatilityFromDeltaDate self callDelta d dm) = Raise e ->
    e = FinError "Failed interpolation due to negative variance." \/
    exists i r q params,
      nth_error (_r self) i = Some r /\
      nth_error (_q self) i = Some q /\
      nth_error (_parameters self) i = Some params /\
      snd (_solveForSmileStrike
             (_stock_price self) (year_frac d (_valuation_date self)) r q
             (option_type_value EUROPEAN_CALL)
             (vol_type_value (_volatility_function_type self))
             callDelta (_stock_price self) params) = Raise e.
Proof.
  intros DeltaMethod self callDelta d dm e Hwf.
  destruct (well_formed_reads self Hwf) as (Hn & Hlen & Hreads).
  destruct (proj2 (brackets_sound self
                     (year_frac d (_valuation_date self)) Hn Hlen))
    as (i0 & i1 & Hbr & Hi1 & Hshape).
  assert (Hi0 : (i0 < _numExpiryDates self)%nat)
    by (destruct Hshape as [->|[-> _]]; lia).
  destruct (Hreads i0 Hi0)
    as (fwd0 & t0 & r0 & q0 & p0 & HF0 & Ht0 & Hr0 & Hq0 & Hp0).
  destruct (Hreads i1 Hi1)
    as (fwd1 & t1 & r1 & q1 & p1 & HF1 & Ht1 & Hr1 & Hq1 & Hp1).
  unfold volatilityFromDeltaDate.
  rewrite Hbr, bind_lift. cbv beta iota.
  rewrite ?HF0, ?HF1, ?Ht0, ?Ht1, ?Hr0, ?Hq0, ?Hp0, ?Hr1, ?Hq1, ?Hp1.
  repeat (rewrite bind_lift; cbv beta iota).
  rewrite snd_bind.
  destruct (snd (_solveForSmileStrike _ _ r0 q0 _ _ _ _ p0))
    as [K0|e0] eqn:ES0.
  2:{ intros H. inversion H; subst. right.
      exists i0, r0, q0, p0. apply getitem_Ok in Hr0, Hq0, Hp0. auto. }
  destruct (volFunction_known (_volatility_function_type self) p0 fwd0 K0 t0)
    as [vol0 Hv0].
  rewrite Hv0, bind_lift. cbv beta iota.
  destruct (i1 =? i0)%nat eqn:Ei; cbn [negb].
  - apply Nat.eqb_eq in Ei. subst i1.
    assert (t1 = t0) by congruence. subst t1.
    rewrite bind_ret. cbv beta iota.
    rewrite FloatFacts.sub_diag_not_above. discriminate.
  - repeat (rewrite bind_assoc, bind_lift; cbv beta iota).
    rewrite bind_assoc, snd_bind.
    destruct (snd (_solveForSmileStrike _ _ r1 q1 _ _ _ _ p1))
      as [K1|e1] eqn:ES1.
    2:{ intros H. inversion H; subst. right.
        exists i1, r1, q1, p1. apply getitem_Ok in Hr1, Hq1, Hp1. auto. }
    destruct (volFunction_known (_volatility_function_type self)
                p1 fwd1 K1 t1) as [vol1 Hv1].
    rewrite bind_assoc, Hv1, bind_lift. cbv beta iota.
    rewrite bind_ret. cbv beta iota.
    destruct (tol_1e_6 <? abs (t1 - t0)); [|discriminate].
    destruct (interp _ _ _ _ _ <? 0); [|discriminate].
    intros H. inversion H. left. reflexivity.
Qed.

End QueryBehaviour.

(* ================================================================== *)
(** ** The calibration report                                          *)
(* ================================================================== *)

Section ReportBehaviour.

Context {X : Externals}.

Local Open Scope float_scope.

(** Counting the lines of a printing loop whose turns all print alike. *)
Lemma for_print_lines :
  forall (keep : printed -> bool) (c : nat) (e0 : exn) body range,
    (forall i, In i range ->
       (snd (body i) = Ok tt /\ length (filter keep (fst (body i))) = c) \/
       snd (body i) = Raise e0) ->
    (snd (for_print body range) = Ok tt /\
     length (filter keep (fst (for_print body range)))
     = (length range * c)%nat) \/
    snd (for_print body range) = Raise e0.
Proof.
  intros keep c e0 body range. induction range as [|i rest IH]; intros H.
  - left. split; reflexivity.
  - cbn [for_print].
    destruct (H i (or_introl eq_refl)) as [[Hr Hc]|Hr];
      destruct (body i) as [out [u|e]]; cbn [fst snd] in *;
      try discriminate.
    + destruct IH as [[Hr' Hc']|Hr'];
        [intros j Hj; apply H; now right| |];
        destruct (for_print body rest) as [out' r']; cbn [fst snd] in *.
      * left. split; [assumption|].
        rewrite filter_app, length_app, Hc, Hc'. cbn [length]. lia.
      * right. assumption.
    + right. assumption.
Qed.

(** A row of the grid of a covered surface has an entry per strike. *)
Lemma grid_covers_reads :
  forall self i j,
    grid_covers self = true ->
    (i < _numExpiryDates self)%nat ->
    (j < _numStrikes self)%nat ->
    exists strike row mktVol,
      getitem (_strikes self) j = Ok strike /\
      getitem (_volatility_grid self) i = Ok row /\
      getitem row j = Ok mktVol.
Proof.
  intros self i j H Hi Hj. unfold grid_covers in H.
  apply andb_true_iff in H as [H Hrows].
  apply andb_true_iff in H as [Hk Hg].
  apply Nat.leb_le in Hk, Hg.
  assert (Hget : forall (A : Type) (l : list A) k,
             (k < length l)%nat -> exists a, nth_error l k = Some a).
  { intros A l k Hl. destruct (nth_error l k) eqn:E; [eauto|].
    apply nth_error_None in E. lia. }
  destruct (Hget _ (_strikes self) j) as [strike Hs]; [lia|].
  destruct (Hget _ (_volatility_grid self) i) as [row Hrow]; [lia|].
  assert (Hin : In row (firstn (_numExpiryDates self)
                               (_volatility_grid self))).
  { apply nth_error_In with (n := i).
    rewrite nth_error_firstn.
    destruct (i <? _numExpiryDates self)%nat eqn:E; [assumption|].
    apply Nat.ltb_ge in E. lia. }
  rewrite forallb_forall in Hrows. apply Hrows in Hin.
  apply Nat.leb_le in Hin.
  destruct (Hget _ row j) as [mktVol Hm]; [lia|].
  exists strike, row, mktVol. unfold getitem.
  now rewrite Hs, Hrow, Hm.
Qed.

(** X16.  The report has a row for every cell, and a bad fit is no error.  On a
    well-formed surface whose grid has an entry for every expiry and
    strike, [checkCalibration] either returns, having printed one row per
    expiry and strike, one rule before each expiry, one rule at the end and
    the four header lines when verbose; or it raises the negative-variance
    error of the strike query.  No difference between fitted and quoted
    volatility, however large, makes it raise, whatever [tol] is. *)
Theorem checkCalibration_reports_every_cell :
  forall self verbose tol,
    well_formed self = true ->
    grid_covers self = true ->
    let run := checkCalibration self verbose tol in
    (snd run = Ok tt /\
     length (filter is_row (fst run))
     = (_numExpiryDates self * _numStrikes self)%nat /\
     length (filter (fun line => negb (is_row line)) (fst run))
     = ((if verbose then 4 else 0) + _numExpiryDates self + 1)%nat) \/
    snd run = Raise (FinError "Negative variance.").
Proof.
  intros self verbose tol Hwf Hcov run. subst run.
  unfold checkCalibration.
  set (body := fun i : nat => match getitem (_expiry_dates self) i with
                              | Ok _ => _ | Raise _ => _ end).
  assert (Hbody : forall keep c, 
             (forall d k a b x, keep (PRow d k a b x) = c) ->
             forall i, In i (seq 0 (_numExpiryDates self)) ->
             (snd (body i) = Ok tt /\
              length (filter keep (fst (body i)))
              = ((if keep PRule then 1 else 0)
                 + _numStrikes self * (if c then 1 else 0))%nat) \/
             snd (body i) = Raise (FinError "Negative variance.")).
  { intros keep c Hkeep i Hi. apply in_seq in Hi. subst body. cbv beta.
    assert (Hd : exists d, getitem (_expiry_dates self) i = Ok d).
    { unfold well_formed in Hwf.
      repeat (apply andb_true_iff in Hwf as [Hwf ?]).
      match goal with
      | E : (length (_expiry_dates self) =? _)%nat = true |- _ =>
          apply Nat.eqb_eq in E
      end.
      unfold getitem.
      destruct (nth_error (_expiry_dates self) i) eqn:E; [eauto|].
      apply nth_error_None in E. lia. }
    destruct Hd as [d ->].
    destruct (for_print_lines keep (if c then 1 else 0)%nat
                (FinError "Negative variance.")
                (fun j => match checkCalibration_cell self i d j with
                          | Ok line => ([line], Ok tt)
                          | Raise e => ([], Raise e)
                          end)
                (seq 0 (_numStrikes self))) as [[Hr Hc]|Hr].
    - intros j Hj. apply in_seq in Hj.
      destruct (grid_covers_reads self i j Hcov) as
        (strike & row & mktVol & Hs & Hrow & Hm); [lia..|].
      unfold checkCalibration_cell. rewrite Hs. cbn [rbind].
      destruct (strike_query_modes self strike d Hwf) as [[v ->]| ->];
        cbn [rbind]; [|now right].
      rewrite Hrow. cbn [rbind]. rewrite Hm. cbn [rbind fst snd].
      left. split; [reflexivity|].
      cbn [filter]. rewrite Hkeep. now destruct c.
    - destruct (for_print _ _) as [rows r]. cbn [fst snd] in *.
      left. split; [assumption|].
      cbn [filter]. rewrite length_seq in Hc.
      destruct (keep PRule); cbn [length]; lia.
    - destruct (for_print _ _) as [rows r]. cbn [fst snd] in *.
      now right. }
  destruct (for_print_lines is_row (_numStrikes self)
              (FinError "Negative variance.") body
              (seq 0 (_numExpiryDates self))) as [[Hr Hrows]|Hr].
  { intros i Hi.
    destruct (Hbody is_row true (fun _ _ _ _ _ => eq_refl) i Hi)
      as [[H1 H2]|H1]; [left|now right].
    split; [assumption|]. rewrite H2. cbn [is_row]. lia. }
  2:{ destruct (for_print body _) as [out r]. cbn [fst snd] in *.
      subst r. now right. }
  destruct (for_print_lines (fun line => negb (is_row line)) 1%nat
              (FinError "Negative variance.") body
              (seq 0 (_numExpiryDates self))) as [[_ Hothers]|Hr'].
  { intros i Hi.
    destruct (Hbody (fun line => negb (is_row line)) false
                (fun _ _ _ _ _ => eq_refl) i Hi)
      as [[H1 H2]|H1]; [left|now right].
    split; [assumption|]. rewrite H2. cbn [is_row negb]. lia. }
  2:{ rewrite Hr in Hr'. discriminate. }
  rewrite length_seq in Hrows, Hothers.
  destruct (for_print body _) as [out r]. cbn [fst snd] in *.
  subst r. left. cbn [fst snd]. split; [reflexivity|].
  rewrite !filter_app, !length_app, Hrows, Hothers.
  destruct verbose; cbn [filter is_row negb length]; lia.
Qed.

End ReportBehaviour.

(* ================================================================== *)
(** ** The properties on the concrete market                           *)
(* ================================================================== *)

Section Examples.

Local Open Scope float_scope.

Ltac floats_differ test H :=
  apply (f_equal test) in H; vm_compute in H; discriminate.

(** The strike search at work: on the falling delta it converges to the
    strike 300 in nine iterations; on the flat delta it spends its fifty
    iterations and raises. *)
Example strike_search_converges :
  snd (Demo.solve_quarter_delta Demo.market) = Ok 300 /\
  length (filter is_secant_iter (fst (Demo.solve_quarter_delta Demo.market)))
  = 9%nat.
Proof. split; vm_compute; reflexivity. Qed.

Example strike_search_fails :
  snd (Demo.solve_quarter_delta Demo.market_flat_delta)
  = Raise StrikeSolveFailed /\
  length (filter is_secant_iter
            (fst (Demo.solve_quarter_delta Demo.market_flat_delta)))
  = 50%nat.
Proof. split; vm_compute; reflexivity. Qed.

(** C2 at work, on the family of value 0.  On the flat delta no iteration
    ends within the tolerance: the caller gets [StrikeSolveFailed] after
    50 iterations.  On the falling delta one does: the caller gets a strike.
    On 8, the value of no family, the search raises before it iterates. *)
Lemma C2_budget_witness :
  (snd (Demo.solve_quarter_delta Demo.market_flat_delta)
   = Raise StrikeSolveFailed /\
   length (filter is_secant_iter
             (fst (Demo.solve_quarter_delta Demo.market_flat_delta)))
   = 50%nat) /\
  (exists K, snd (Demo.solve_quarter_delta Demo.market) = Ok K) /\
  (snd (@_solveForSmileStrike Demo.market 100 1 0 0 1 8 0.25 100
                              [0.25; 0; 0])
   = Raise (FinError "Unknown Model Type") /\
   filter is_secant_iter
     (fst (@_solveForSmileStrike Demo.market 100 1 0 0 1 8 0.25 100
                                 [0.25; 0; 0])) = []).
Proof.
  pose proof (@C2_strike_solve_budget Demo.market_flat_delta
                100 1 0 0 1 0 0.25 100 [0.25; 0; 0]) as Hflat.
  pose proof (@C2_strike_solve_budget Demo.market
                100 1 0 0 1 0 0.25 100 [0.25; 0; 0]) as Hfalling.
  pose proof (@C2_strike_solve_budget Demo.market
                100 1 0 0 1 8 0.25 100 [0.25; 0; 0]) as Hunknown.
  cbv zeta in Hflat, Hfalling, Hunknown.
  destruct Hflat as (_ & _ & _ & Hflat & _).
  destruct Hfalling as (_ & _ & _ & Hfalling & _).
  destruct Hunknown as (_ & _ & _ & _ & Hunknown).
  destruct Hflat as [Hflat _]; [exists CLARK; reflexivity|].
  destruct Hfalling as [_ Hfalling]; [exists CLARK; reflexivity|].
  split; [|split].
  - apply Hflat. vm_compute. reflexivity.
  - apply Hfalling. vm_compute. reflexivity.
  - apply Hunknown. intros ty. destruct ty; discriminate.
Defined.

(** The retry of C1 at work: SciPy's simplex search raises, conjugate
    gradient is called once and its vector is the result. *)
Lemma C1_retry_witness :
  fst (Demo.calibrate_0 Demo.market) =
    [EvCalibrate 0 [0; 0; 0] NELDER_MEAD;
     EvMinimize "Nelder-Mead" [0; 0; 0] tol_1e_6;
     EvPrint "Failed to converge, will try CG";
     EvMinimize "CG" [0; 0; 0] tol_1e_6] /\
  length (filter is_optimizer_call (fst (Demo.calibrate_0 Demo.market)))
  = 2%nat /\
  snd (Demo.calibrate_0 Demo.market) = Ok [0.125; 0; 0].
Proof.
  apply (@C1_retry_once_with_CG Demo.market 100 (91 / 365) 0 0
           Demo.strikes_5 0%nat Demo.grid_3 0%Z
           [0; 0; 0] NELDER_MEAD (External 2)).
  - discriminate.
  - reflexivity.
Defined.

(** C1 fails as stated: the primary optimizer raises, the retry with
    conjugate gradient returns without having converged, and the calibration
    returns the retry's vector instead of failing. *)
Lemma C1_counterexample :
  @primary_outcome (Demo.market_with false) NELDER_MEAD
     (Demo.objective_0 (Demo.market_with false)) [0; 0; 0]
  = Raise (External 2) /\
  @minimize (Demo.market_with false)
     (Demo.objective_0 (Demo.market_with false)) [0; 0; 0] "CG" tol_1e_6
  = Ok {| x := [0.125; 0; 0]; success := false |} /\
  snd (Demo.calibrate_0 (Demo.market_with false)) = Ok [0.125; 0; 0].
Proof. split; [reflexivity|split; reflexivity]. Qed.

(** C3 at work on tenors of one, two and four years: the strike query at
    the last tenor and the delta query beyond it both take the bracket
    (2, 2). *)
Lemma C3_bracket_witness :
  @bracket_strike Demo.market (Demo.built Demo.dates_124) 4 = Ok (2, 2)%nat /\
  @bracket_delta Demo.market (Demo.built Demo.dates_124) 5 = Ok (2, 2)%nat.
Proof.
  split.
  - apply (fun h1 h2 h3 h4 h5 =>
             proj1 (@C3_bracket_beyond_last Demo.market
                      (Demo.built Demo.dates_124) 4 1 4 h1 h2 h3 h4 h5));
      [ vm_compute; lia | vm_compute; reflexivity .. ].
  - apply (fun h1 h2 h3 h4 h5 =>
             proj2 (@C3_bracket_beyond_last Demo.market
                      (Demo.built Demo.dates_124) 5 1 4 h1 h2 h3 h4 h5));
      [ vm_compute; lia | vm_compute; reflexivity .. ].
Defined.

(** C3 fails as stated: on the surface built on three expiries, the last at
    four years, the delta query at exactly four years is at the latest
    tenor and takes the bracket (1, 2). *)
Lemma C3_counterexample :
  (2 <= @_numExpiryDates Demo.market (Demo.built Demo.dates_3))%nat /\
  getitem_last (@_texp Demo.market (Demo.built Demo.dates_3)) = Ok 4 /\
  (4 <=? @year_frac Demo.market 1460 0) = true /\
  @bracket_delta Demo.market (Demo.built Demo.dates_3)
                 (@year_frac Demo.market 1460 0) = Ok (1, 2)%nat /\
  @bracket_strike Demo.market (Demo.built Demo.dates_3)
                  (@year_frac Demo.market 1460 0) = Ok (2, 2)%nat.
Proof.
  split; [vm_compute; lia|]. repeat split; vm_compute; reflexivity.
Qed.

(** C4 at work between the tenors of one and two years: at a year and a
    half the variance is interpolated. *)
Lemma C4_interpolation_witness :
  @volatilityFromStrikeDate Demo.market (Demo.built Demo.dates_124) 100 547.5 =
  Ok (sqrt (interp 1.5 1 2 (0.125 * 0.125 * 1) (0.25 * 0.25 * 2) / 1.5)).
Proof.
  apply (fun h1 h2 h3 h4 h5 h6 h7 =>
           proj1 (proj2 (@C4_variance_interpolation Demo.market
                           (Demo.built Demo.dates_124) 100 547.5 0%nat 1%nat 1 2
                           0.125 0.25 h1 h2 h3 h4 h5)) h6 h7);
    vm_compute; reflexivity.
Defined.

(** C4 fails as stated: two expiries 21 seconds apart bracket the query,
    the endpoints differ, no variance is negative, and the query returns
    the upper endpoint's volatility 0.25 where [sqrt(var/tau)] is below
    0.25. *)
Lemma C4_counterexample :
  @bracket_strike Demo.market (Demo.built Demo.dates_close)
                  (@year_frac Demo.market 100.0001220703125 0)
  = Ok (0, 1)%nat /\
  @smile_at Demo.market (Demo.built Demo.dates_close) 100 0 = Ok 0.125 /\
  @smile_at Demo.market (Demo.built Demo.dates_close) 100 1 = Ok 0.25 /\
  @volatilityFromStrikeDate Demo.market (Demo.built Demo.dates_close)
                            100 100.0001220703125 = Ok 0.25 /\
  (sqrt (interp (100.0001220703125 / 365) (100 / 365)
                (100.000244140625 / 365)
                (0.125 * 0.125 * (100 / 365))
                (0.25 * 0.25 * (100.000244140625 / 365))
         / (100.0001220703125 / 365)) <? 0.25) = true /\
  (interp (100.0001220703125 / 365) (100 / 365) (100.000244140625 / 365)
          (0.125 * 0.125 * (100 / 365))
          (0.25 * 0.25 * (100.000244140625 / 365)) <? 0) = false.
Proof. repeat split; vm_compute; reflexivity. Qed.

(** C5 at work: at the last tenor the query is the tenor's smile; at the
    middle tenor the bracket is (0, 1) and the query is the interpolation
    at its upper end. *)
Lemma C5_tenor_witness :
  (@bracket_strike Demo.market (Demo.built Demo.dates_124) 4 = Ok (2, 2)%nat /\
   @volatilityFromStrikeDate Demo.market (Demo.built Demo.dates_124) 100 1460 =
   @smile_at Demo.market (Demo.built Demo.dates_124) 100 2) /\
  (@bracket_strike Demo.market (Demo.built Demo.dates_124) 2 = Ok (0, 1)%nat /\
   @volatilityFromStrikeDate Demo.market (Demo.built Demo.dates_124) 100 730 =
   Ok (sqrt (interp 2 1 2 (0.125 * 0.125 * 1) (0.25 * 0.25 * 2) / 2))).
Proof.
  split.
  - apply (fun h1 h2 h3 h4 h5 h6 =>
             proj1 (@C5_query_at_tenor Demo.market (Demo.built Demo.dates_124) 100
                      2%nat 1460 4 h1 h2 h3 h4 h5) h6);
      [ vm_compute; reflexivity .. | right; reflexivity ].
  - destruct (fun h1 h2 h3 h4 h5 h6 h7 =>
                proj2 (@C5_query_at_tenor Demo.market (Demo.built Demo.dates_124) 100
                         1%nat 730 2 h1 h2 h3 h4 h5) h6 h7)
      as [Hbr Hq];
      [ vm_compute; reflexivity .. | discriminate | discriminate | ].
    split; [exact Hbr|].
    apply (Hq 1 0.125 0.25); vm_compute; reflexivity.
Defined.

(** C5 fails as stated: on the surface built on expiries at 91, 1095 and
    1460 days, the strike query at the second expiry date returns a float
    below 0.25, the smile of that tenor at its own parameters. *)
Lemma C5_counterexample :
  nth_error (@_expiry_dates Demo.market (Demo.built Demo.dates_3)) 1
  = Some (1095 : @Date Demo.market) /\
  @smile_at Demo.market (Demo.built Demo.dates_3) 100 1 = Ok 0.25 /\
  @volatilityFromStrikeDate Demo.market (Demo.built Demo.dates_3) 100 1095
  <> @smile_at Demo.market (Demo.built Demo.dates_3) 100 1 /\
  match @volatilityFromStrikeDate Demo.market (Demo.built Demo.dates_3)
                                  100 1095 with
  | Ok v => v <? 0.25
  | Raise _ => false
  end = true.
Proof.
  repeat split; try (vm_compute; reflexivity).
  intros H.
  floats_differ (fun r : result float =>
                   match r with Ok v => v <? 0.25 | Raise _ => false end) H.
Qed.

(** C6 at work: a quarter of a year and a month are below the first tenor,
    five and a half years and eight years are above the last. *)
Lemma C6_extrapolation_witness :
  (@volatilityFromStrikeDate Demo.market (Demo.built Demo.dates_124) 100 91 =
   @smile_at Demo.market (Demo.built Demo.dates_124) 100 0 /\
   @volatilityFromStrikeDate Demo.market (Demo.built Demo.dates_124) 100 30 =
   @volatilityFromStrikeDate Demo.market (Demo.built Demo.dates_124) 100 91)
  /\
  (@volatilityFromStrikeDate Demo.market (Demo.built Demo.dates_124)
                             100 2000 =
   @smile_at Demo.market (Demo.built Demo.dates_124) 100 2 /\
   @volatilityFromStrikeDate Demo.market (Demo.built Demo.dates_124)
                             100 2920 =
   @volatilityFromStrikeDate Demo.market (Demo.built Demo.dates_124)
                             100 2000).
Proof.
  split.
  - destruct (fun h1 h2 h3 h4 h5 =>
                proj1 (@C6_flat_extrapolation Demo.market
                         (Demo.built Demo.dates_124) 100 91 30 1 4
                         h1 h2 h3 h4) h5) as [Hsmile Hsame];
      [ vm_compute; reflexivity .. | ].
    split; [exact Hsmile|]. apply Hsame. vm_compute. reflexivity.
  - destruct (fun h1 h2 h3 h4 h5 =>
                proj2 (@C6_flat_extrapolation Demo.market
                         (Demo.built Demo.dates_124) 100 2000 2920 1 4
                         h1 h2 h3 h4) h5) as [Hsmile Hsame];
      [ vm_compute; reflexivity .. | ].
    split; [exact Hsmile|]. apply Hsame. vm_compute. reflexivity.
Defined.

(** C8 at work on the surface built on three expiries: the entries of the
    second expiry, 1095 days out. *)
Lemma C8_term_structure_witness :
  nth_error (@_texp Demo.market (Demo.built Demo.dates_3)) 1 = Some 3 /\
  nth_error (@_F0T Demo.market (Demo.built Demo.dates_3)) 1
  = Some (100 * 1 / 1) /\
  nth_error (@_r Demo.market (Demo.built Demo.dates_3)) 1
  = Some (- 0 / 3).
Proof.
  apply (fun h =>
           proj1 (proj2 (@C8_term_structure_invariant Demo.market unit
                           (0 : @Date Demo.market) 100 tt tt Demo.dates_3
                           Demo.strikes_5 Demo.grid_3 CLARK
                           CONJUGATE_GRADIENT
                           (fst (Demo.build Demo.market Demo.dates_3 0 tt
                                            CONJUGATE_GRADIENT))
                           (Demo.built Demo.dates_3) h))
                 1%nat (1095 : @Date Demo.market) eq_refl).
  vm_compute. reflexivity.
Defined.

(** C9 at work on the same construction: three calibrations, in order, the
    first from the zero vector, each later one from the fit before it. *)
Lemma C9_warm_start_witness :
  exists fits : list (list float),
    length fits = 3%nat /\
    calibrations (fst (@_buildVolSurface Demo.market
                         (Demo.blank Demo.dates_3) CONJUGATE_GRADIENT)) =
    [(0%nat, [0; 0; 0]); (1%nat, nth 0 fits []); (2%nat, nth 1 fits [])].
Proof.
  destruct (@C9_warm_start Demo.market (Demo.blank Demo.dates_3)
              CONJUGATE_GRADIENT
              (fst (@_buildVolSurface Demo.market (Demo.blank Demo.dates_3)
                      CONJUGATE_GRADIENT))
              (Demo.built Demo.dates_3))
    as (fits & Hlen & Hcal & _).
  - vm_compute. reflexivity.
  - exists fits. split; [exact Hlen|]. rewrite Hcal. reflexivity.
Defined.

End Examples.
(* ================================================================== *)
(** ** The further properties on the concrete market                   *)
(* ================================================================== *)

Section ExamplesMore.

Local Open Scope float_scope.

(** Conjugate gradient returns without having converged: its vector is the
    result, and nothing else is called. *)
Lemma _solveToHorizon_primary_returns_witness :
  DemoMore.calibrate_cg (Demo.market_with false) =
  ([EvCalibrate 0 [0; 0; 0] CONJUGATE_GRADIENT;
    EvMinimize "CG" [0; 0; 0] tol_1e_6],
   Ok [0.125; 0; 0]).
Proof.
  apply (@_solveToHorizon_primary_returns (Demo.market_with false)
           100 (91 / 365) 0 0 Demo.strikes_5 0%nat Demo.grid_3 0%Z
           [0; 0; 0] CONJUGATE_GRADIENT [0.125; 0; 0]).
  reflexivity.
Defined.

(** Conjugate gradient raises as the primary optimizer: one call, and the
    unbound local. *)
Lemma _solveToHorizon_cg_raises_witness :
  DemoMore.calibrate_cg DemoMore.market_silent =
  ([EvCalibrate 0 [0; 0; 0] CONJUGATE_GRADIENT;
    EvMinimize "CG" [0; 0; 0] tol_1e_6],
   Raise (UnboundLocalError "xopt")).
Proof.
  apply (@_solveToHorizon_cg_raises DemoMore.market_silent
           100 (91 / 365) 0 0 Demo.strikes_5 0%nat Demo.grid_3 0%Z
           [0; 0; 0] (External 2)).
  reflexivity.
Defined.

(** The dispatch on the values 0 to 7 of the families: the value 5 of
    [CLARK5] reaches the formula of Clark, and 8 is no family's value. *)
Lemma volFunction_dispatch_witness :
  @volFunction Demo.market 5 [0.25; 0; 0] 100 100 1
  = Ok (@vol_function_clark Demo.market [0.25; 0; 0] 100 100 1) /\
  @volFunction Demo.market 8 [0.25; 0; 0] 100 100 1
  = Raise (FinError "Unknown Model Type").
Proof.
  assert (Hd : @values_distinct Demo.market)
    by (intros a b H; destruct a, b; try reflexivity; discriminate H).
  split.
  - apply (proj1 (@volFunction_dispatch Demo.market Hd) CLARK5).
  - apply (proj2 (@volFunction_dispatch Demo.market Hd)).
    intros ty; destruct ty; discriminate.
Defined.

(** The objective of the first expiry on the rectangular market. *)
Lemma _obj_total_witness :
  exists v, @_obj Demo.market DemoMore.args_0 [0.25; 0; 0] = Ok v.
Proof.
  apply (@_obj_total Demo.market DemoMore.args_0 [0.25; 0; 0]
           (repeat 0.125 5) (repeat 0.125 5)).
  - exists CLARK. reflexivity.
  - reflexivity.
  - reflexivity.
  - vm_compute. lia.
  - vm_compute. lia.
Defined.

(** The constructor refuses a one-row grid whose row has one quote for the
    five strikes, and a three-row grid for one expiry, before it calibrates
    anything. *)
Lemma __init___dimension_checks_witness :
  @__init__ Demo.market 0 100 tt tt [365] Demo.strikes_5 [[0.125]]
            CLARK CONJUGATE_GRADIENT
  = ([], Raise (FinError "2nd dimension of the vol matrix is not nStrikes"))
  /\
  @__init__ Demo.market 0 100 tt tt [365] Demo.strikes_5
            Demo.grid_3 CLARK CONJUGATE_GRADIENT
  = ([], Raise (FinError "1st dimension of vol grid is not nExpiryDates")).
Proof.
  split.
  - apply (proj2 (proj2 (@__init___dimension_checks Demo.market 0 100 tt tt
                           [365] Demo.strikes_5 [[0.125]]
                           CLARK CONJUGATE_GRADIENT))
             [0.125] []).
    + reflexivity.
    + reflexivity.
    + vm_compute. lia.
  - apply (proj1 (proj2 (@__init___dimension_checks Demo.market 0 100 tt tt
                           [365] Demo.strikes_5 Demo.grid_3
                           CLARK CONJUGATE_GRADIENT))
             (repeat 0.125 5) [repeat 0.25 5; repeat 0.375 5]).
    + reflexivity.
    + vm_compute. lia.
Defined.

(** The surface built on one, two and four years is well formed and counts
    three expiries and five strikes. *)
Lemma __init___builds_well_formed_witness :
  @well_formed Demo.market (Demo.built Demo.dates_124) = true /\
  @_numExpiryDates Demo.market (Demo.built Demo.dates_124) = 3%nat /\
  @_numStrikes Demo.market (Demo.built Demo.dates_124) = 5%nat.
Proof.
  destruct (@__init___builds_well_formed Demo.market 0 100 tt tt
              Demo.dates_124 Demo.strikes_5 Demo.grid_3 CLARK
              CONJUGATE_GRADIENT
              (fst (Demo.build Demo.market Demo.dates_124 0 tt
                               CONJUGATE_GRADIENT))
              (Demo.built Demo.dates_124))
    as (Hwf & _ & _ & _ & _ & _ & _ & Hn & Hk & _).
  - vm_compute. reflexivity.
  - split; [exact Hwf|]. split; [exact Hn|exact Hk].
Defined.

(** A construction cut short: with optimizers that all raise, the first
    calibration is started and no other. *)
Example construction_cut_short :
  calibrated_expiries
    (fst (Demo.build DemoMore.market_silent Demo.dates_124 0 tt
                     CONJUGATE_GRADIENT))
  = [0%nat] /\
  snd (Demo.build DemoMore.market_silent Demo.dates_124 0 tt
                  CONJUGATE_GRADIENT)
  = Raise (UnboundLocalError "xopt").
Proof. split; vm_compute; reflexivity. Qed.

(** Both brackets at a year and a half, on tenors of one, two and four
    years. *)
Lemma brackets_read_well_witness :
  @bracket_reads_well Demo.market (Demo.built Demo.dates_124) 1.5
     (@bracket_strike Demo.market (Demo.built Demo.dates_124) 1.5) /\
  @bracket_reads_well Demo.market (Demo.built Demo.dates_124) 1.5
     (@bracket_delta Demo.market (Demo.built Demo.dates_124) 1.5).
Proof.
  apply (@brackets_read_well Demo.market (Demo.built Demo.dates_124) 1.5).
  - vm_compute. lia.
  - vm_compute. reflexivity.
Defined.

(** At three years, between the tenors of two and four years, both queries
    take a bracket of two adjacent tenors that enclose the query time. *)
Lemma brackets_between_tenors_witness :
  (exists k tk tk1,
      @bracket_strike Demo.market (Demo.built Demo.dates_124) 3
      = Ok (k, S k) /\
      nth_error (@_texp Demo.market (Demo.built Demo.dates_124)) k
      = Some tk /\
      nth_error (@_texp Demo.market (Demo.built Demo.dates_124)) (S k)
      = Some tk1 /\
      (tk <? 3) = true /\ (3 <=? tk1) = true) /\
  (exists k tk tk1,
      @bracket_delta Demo.market (Demo.built Demo.dates_124) 3
      = Ok (k, S k) /\
      nth_error (@_texp Demo.market (Demo.built Demo.dates_124)) k
      = Some tk /\
      nth_error (@_texp Demo.market (Demo.built Demo.dates_124)) (S k)
      = Some tk1 /\
      (tk <? 3) = true /\ (3 <=? tk1) = true).
Proof.
  destruct (@brackets_between_tenors Demo.market (Demo.built Demo.dates_124)
              3 1 4) as [Hs Hd]; [vm_compute; reflexivity ..|].
  split; [apply Hs|apply Hd]; vm_compute; reflexivity.
Defined.

(** The surface with the single tenor of one year, asked at day 5000. *)
Lemma single_tenor_answers_every_date_witness :
  @volatilityFromStrikeDate Demo.market DemoMore.built_single 100 5000
  = @smile_at Demo.market DemoMore.built_single 100 0 /\
  @volatilityFromDeltaDate Demo.market unit DemoMore.built_single 0.25 5000
                           None
  = @delta_at_tenor Demo.market DemoMore.built_single 0.25
                    (@year_frac Demo.market 5000 0) 0.
Proof.
  destruct (@single_tenor_answers_every_date Demo.market unit
              DemoMore.built_single) as [Hs Hd].
  - vm_compute. reflexivity.
  - split; [apply Hs|apply Hd].
Defined.

(** The delta query a hundred days out, before the first tenor, and at day
    2000, after the last. *)
Lemma delta_flat_extrapolation_witness :
  @volatilityFromDeltaDate Demo.market unit (Demo.built Demo.dates_124)
                           0.25 100 None
  = @delta_at_tenor Demo.market (Demo.built Demo.dates_124) 0.25
                    (@year_frac Demo.market 100 0) 0 /\
  @volatilityFromDeltaDate Demo.market unit (Demo.built Demo.dates_124)
                           0.25 2000 None
  = @delta_at_tenor Demo.market (Demo.built Demo.dates_124) 0.25
                    (@year_frac Demo.market 2000 0) 2.
Proof.
  split.
  - apply (fun h1 h2 h3 h4 =>
             proj1 (@delta_flat_extrapolation Demo.market unit
                      (Demo.built Demo.dates_124) 0.25 100 None 1 4
                      h1 h2 h3 h4));
      vm_compute; reflexivity.
  - apply (fun h1 h2 h3 h4 =>
             proj2 (@delta_flat_extrapolation Demo.market unit
                      (Demo.built Demo.dates_124) 0.25 2000 None 1 4
                      h1 h2 h3 h4));
      vm_compute; reflexivity.
Defined.

(** The strike query at a year and a half on the built surface. *)
Lemma strike_query_failure_modes_witness :
  (exists v,
      @volatilityFromStrikeDate Demo.market (Demo.built Demo.dates_124)
                                100 547.5 = Ok v) \/
  @volatilityFromStrikeDate Demo.market (Demo.built Demo.dates_124)
                            100 547.5
  = Raise (FinError "Negative variance.").
Proof.
  apply (@strike_query_failure_modes Demo.market
           (Demo.built Demo.dates_124) 100 547.5).
  vm_compute. reflexivity.
Defined.

(** The delta query where no strike has the delta: the error is the one
    the strike search raised on a row of the surface. *)
Lemma delta_query_failure_modes_witness :
  StrikeSolveFailed
  = FinError "Failed interpolation due to negative variance." \/
  exists i r q params,
    nth_error (@_r Demo.market_flat_delta DemoMore.built_flat_delta) i
    = Some r /\
    nth_error (@_q Demo.market_flat_delta DemoMore.built_flat_delta) i
    = Some q /\
    nth_error (@_parameters Demo.market_flat_delta DemoMore.built_flat_delta)
              i = Some params /\
    snd (@_solveForSmileStrike Demo.market_flat_delta
           100 (@year_frac Demo.market_flat_delta 547.5 0) r q
           (@option_type_value Demo.market_flat_delta EUROPEAN_CALL)
           (@vol_type_value Demo.market_flat_delta CLARK)
           0.25 100 params) = Raise StrikeSolveFailed.
Proof.
  apply (@delta_query_failure_modes Demo.market_flat_delta unit
           DemoMore.built_flat_delta 0.25 547.5 None StrikeSolveFailed).
  - vm_compute. reflexivity.
  - vm_compute. reflexivity.
Defined.

(** The delta query at the last tenor, four years, takes the bracket of
    the two last tenors. *)
Lemma bracket_delta_at_tenor_witness :
  @bracket_delta Demo.market (Demo.built Demo.dates_124) 4 = Ok (1, 2)%nat.
Proof.
  apply (@bracket_delta_at_tenor Demo.market (Demo.built Demo.dates_124)
           2%nat 4); vm_compute; reflexivity.
Defined.

(** The verbose report of the built surface: fifteen rows and eight other
    lines, or the negative-variance error. *)
Lemma checkCalibration_reports_every_cell_witness :
  (snd (@checkCalibration Demo.market (Demo.built Demo.dates_124) true
                          tol_1e_6) = Ok tt /\
   length (filter is_row
             (fst (@checkCalibration Demo.market (Demo.built Demo.dates_124)
                                     true tol_1e_6))) = 15%nat /\
   length (filter (fun line => negb (is_row line))
             (fst (@checkCalibration Demo.market (Demo.built Demo.dates_124)
                                     true tol_1e_6))) = 8%nat) \/
  snd (@checkCalibration Demo.market (Demo.built Demo.dates_124) true
                         tol_1e_6)
  = Raise (FinError "Negative variance.").
Proof.
  apply (@checkCalibration_reports_every_cell Demo.market
           (Demo.built Demo.dates_124) true tol_1e_6);
    vm_compute; reflexivity.
Defined.

(** The report at work: the built surface fits its flat market, and the
    report returns with its rows. *)
Example report_returns :
  snd (@checkCalibration Demo.market (Demo.built Demo.dates_124) false
                         tol_1e_6) = Ok tt /\
  nth_error (fst (@checkCalibration Demo.market (Demo.built Demo.dates_124)
                                    false tol_1e_6)) 1
  = Some (PRow (365 : @Date Demo.market) 80 12.5 12.5 0).
Proof. split; vm_compute; reflexivity. Qed.

End ExamplesMore.
